(** * Retrieval and synthesis pipeline of the product comparison application

    A shallow embedding of [src/rag/query_analyzer.py], [src/rag/retriever.py]
    and [src/rag/synthesizer.py], together with the parts of
    [src/rag/vector_store.py] and [src/utils/llm_client.py] they call.

    Conventions of the embedding.
    - Text is a [string] of bytes; queries are taken to be ASCII text, so that
      [str.lower] only moves the letters [A]..[Z].
    - A Python [float] is an exact rational ([Qc]); rounding is not modelled.
    - A Python [dict] is a [gmap]; the metadata of a stored product is a
      [gmap string MetaVal].
    - The dataclasses are records with the field types of their annotations.
    - Calls to the two external services (text generation, vector index) are
      recorded in a trace that every effectful function threads; an exception
      is the left summand of the result.  [print] is not modelled. *)

From Stdlib Require Import QArith Qcanon.
From stdpp Require Import gmap strings list fin_maps sorting pretty.

Close Scope Qc_scope.
Close Scope Q_scope.

Local Open Scope string_scope.
Local Open Scope list_scope.

(** ** Text helpers *)

Module Text.

(** The line feed, the double quote and the arrow of the analyzer prompt. *)
Definition nl : string := String (Ascii.ascii_of_nat 10) "".
Definition dq : string := String (Ascii.ascii_of_nat 34) "".
Definition quoted (s : string) : string := dq +:+ s +:+ dq.

(** [sep.join(parts)] *)
Definition join (sep : string) (parts : list string) : string :=
  String.concat sep parts.

(** [c.lower()] on one ASCII character. *)
Definition lower_ascii (c : Ascii.ascii) : Ascii.ascii :=
  let n := Ascii.nat_of_ascii c in
  if (65 <=? n)%nat && (n <=? 90)%nat then Ascii.ascii_of_nat (n + 32) else c.

(** [s.lower()] *)
Fixpoint lower (s : string) : string :=
  match s with
  | EmptyString => EmptyString
  | String c s' => String (lower_ascii c) (lower s')
  end.

(** [kw in s] on strings: [kw] occurs in [s] as a contiguous block. *)
Fixpoint contains (kw s : string) : bool :=
  String.prefix kw s ||
  match s with
  | EmptyString => false
  | String _ s' => contains kw s'
  end.

(** [any(kw in s for kw in kws)] *)
Definition any_in (kws : list string) (s : string) : bool :=
  existsb (fun kw => contains kw s) kws.

End Text.

(** ** Data model *)

(** A metadata value of the vector index: text, an integer or a float. *)
Inductive MetaVal : Type :=
| MStr (s : string)
| MInt (z : Z)
| MFloat (q : Qc).

Global Instance MetaVal_eq_dec : EqDecision MetaVal.
Proof. solve_decision. Defined.

Abbreviation Metadata := (gmap string MetaVal).

(** [QueryAnalysis] of [query_analyzer.py]. *)
Record QueryAnalysis : Type := mkQueryAnalysis {
  original_query : string;
  query_type : string;
  aspects : list string;
  entities : list string;
  is_comparative : bool;
  expanded_query : string
}.

(** [RetrievalResult] of [retriever.py]; [relevance_score] is annotated
    [# 0-1, higher is better]. *)
Record RetrievalResult : Type := mkRetrievalResult {
  product_title : string;
  brand : string;
  content : string;
  metadata : Metadata;
  relevance_score : Qc
}.

(** [RetrievalContext] of [retriever.py]. *)
Record RetrievalContext : Type := mkRetrievalContext {
  query : string;
  query_analysis : QueryAnalysis;
  results : list RetrievalResult;
  total_retrieved : nat
}.

(** [self.results[:k]] *)
Definition get_top_k (context : RetrievalContext) (k : nat) : list RetrievalResult :=
  take k (results context).

(** [[r.product_title for r in self.results]] *)
Definition get_all_products (context : RetrievalContext) : list string :=
  product_title <$> results context.

(** One row of the comparison table: the inner dict with the keys
    ["brand"], ["price"] and ["rating"]. *)
Record TableRow : Type := mkTableRow {
  row_brand : MetaVal;
  row_price : string;
  row_rating : MetaVal
}.

(** [ComparisonResult] of [synthesizer.py].  [__post_init__] replaces a
    missing [citations] by the empty list, so the field is a plain list and
    the constructor calls that leave it out pass [[]]. *)
Record ComparisonResult : Type := mkComparisonResult {
  cr_query : string;
  answer : string;
  products_compared : list string;
  comparison_table : option (gmap string TableRow);
  summary : option string;
  citations : list string
}.

(** ** Exceptions, the trace of external calls and the environment *)

(** The exceptions the modelled code can raise.  [NotText k] stands for a
    metadata value under key [k] that is not text where the dataclass
    annotation asks for [str]; Python would carry such a value on, and no
    entry written by [add_product] has one. *)
Inductive Exn : Type :=
| GenerationError (msg : string)
| JSONDecodeError
| AttributeError
| KeyError (key : string)
| NotText (key : string).

(** [str(e)].  Only a generation failure and a [KeyError] are ever rendered:
    [analyze] drops the exception it catches. *)
Definition exn_str (e : Exn) : string :=
  match e with
  | GenerationError msg => msg
  | JSONDecodeError => "Expecting value"
  | AttributeError => "object has no attribute 'get'"
  | KeyError k => "'" +:+ k +:+ "'"
  | NotText k => k
  end.

(** One call to an external service. *)
Inductive Event : Type :=
| EvGenerate (prompt system_prompt : string) (temperature : Qc) (max_tokens : nat)
| EvQuery (query_text : string) (n_results : nat) (where_ : option (string * MetaVal)).

Definition is_generate (ev : Event) : bool :=
  match ev with EvGenerate _ _ _ _ => true | EvQuery _ _ _ => false end.

(** An entry of the collection: id, document text, metadata. *)
Record Entry : Type := mkEntry {
  e_id : string;
  e_document : string;
  e_metadata : Metadata
}.

(** One row of the answer of [VectorStore.query]: the parallel lists
    ["ids"], ["documents"], ["metadatas"], ["distances"] read at one index. *)
Record Hit : Type := mkHit {
  h_id : string;
  h_document : string;
  h_metadata : Metadata;
  h_distance : Qc
}.

(** The parsed classifier answer, as far as [analyze] reads it: the five
    keys of the JSON object, each present or absent, with the types the
    dataclass annotates. *)
Record JsonObject : Type := mkJsonObject {
  j_query_type : option string;
  j_aspects : option (list string);
  j_entities : option (list string);
  j_is_comparative : option bool;
  j_expanded_query : option string
}.

(** A parsed JSON document: an object, or any other JSON value (array,
    string, number, ...), which has no [get]. *)
Inductive JsonDoc : Type :=
| JObject (obj : JsonObject)
| JOther.

(** What the program does not decide itself.
    - [llm_generate] is [LLMClient.generate]: given the calls made so far
      and the four arguments it returns the text ([inr]) or raises an
      exception with the given message ([inl]).
    - [json_loads] is Python's [json.loads]; [None] is a decode error.
    - [collection] and [distance] are the Chroma collection and the distance
      between the embedding of a query text and a stored entry.
    - [fmt_percent] is the float format [:.2%] and [fmt_float] is [str] on a
      float. *)
Record World : Type := mkWorld {
  llm_generate : list Event -> string -> string -> Qc -> nat -> string + string;
  json_loads : string -> option JsonDoc;
  collection : list Entry;
  distance : string -> Entry -> Qc;
  fmt_percent : Qc -> string;
  fmt_float : Qc -> string
}.

(** Order of the index answer: ascending distance. *)
Definition closer (a b : Hit) : Prop := (h_distance a <= h_distance b)%Qc.

Global Instance closer_dec : RelDecision closer :=
  fun a b => decide (h_distance a <= h_distance b)%Qc.

(** Computations: a trace in, an exception or a value and a trace out. *)
Definition M (A : Type) : Type := list Event -> (Exn + A) * list Event.

Definition ret {A} (a : A) : M A := fun tr => (inr a, tr).
Definition raise {A} (e : Exn) : M A := fun tr => (inl e, tr).
Definition bind {A B} (m : M A) (k : A -> M B) : M B :=
  fun tr =>
    match m tr with
    | (inr a, tr') => k a tr'
    | (inl e, tr') => (inl e, tr')
    end.
(** [try: m except Exception as e: h e] *)
Definition try_except {A} (m : M A) (h : Exn -> M A) : M A :=
  fun tr =>
    match m tr with
    | (inr a, tr') => (inr a, tr')
    | (inl e, tr') => h e tr'
    end.
Definition lift {A} (r : Exn + A) : M A := fun tr => (r, tr).

Declare Scope m_scope.
Delimit Scope m_scope with M.
Notation "x <- m ;; k" := (bind m (fun x => k))
  (at level 100, m at next level, right associativity) : m_scope.
Local Open Scope m_scope.

(** [d[key]] for a key that must hold text. *)
Definition meta_text (md : Metadata) (key : string) : Exn + string :=
  match md !! key with
  | None => inl (KeyError key)
  | Some (MStr s) => inr s
  | Some _ => inl (NotText key)
  end.

(** ** The generation client ([llm_client.py]) *)

Section Pipeline.
Context (W : World).

(** [LLMClient.generate] *)
Definition generate (prompt system_prompt : string) (temperature : Qc)
    (max_tokens : nat) : M string :=
  fun tr =>
    let tr' := tr ++ [EvGenerate prompt system_prompt temperature max_tokens] in
    match llm_generate W tr prompt system_prompt temperature max_tokens with
    | inr text => (inr text, tr')
    | inl msg => (inl (GenerationError msg), tr')
    end.

(** [LLMClient.generate_json]; the system prompt is always given here. *)
Definition generate_json (prompt system_prompt : string) (temperature : Qc) : M string :=
  generate prompt
    (system_prompt +:+ Text.nl +:+ Text.nl +:+
     "You MUST respond with valid JSON only. No other text.")
    temperature 3000.

(** ** The vector index ([vector_store.py]) *)

(** [where=filter_metadata]: equality on the stated field. *)
Definition matches (where_ : option (string * MetaVal)) (e : Entry) : bool :=
  match where_ with
  | None => true
  | Some (k, v) => bool_decide (e_metadata e !! k = Some v)
  end.

Definition hit_of (query_text : string) (e : Entry) : Hit :=
  {| h_id := e_id e; h_document := e_document e;
     h_metadata := e_metadata e; h_distance := distance W query_text e |}.

(** [collection.query] of the Chroma library, by its contract: the entries
    that match the filter, by ascending distance, at most [n_results] of
    them. *)
Definition collection_query (query_text : string) (n_results : nat)
    (where_ : option (string * MetaVal)) : list Hit :=
  take n_results
    (merge_sort closer
       (hit_of query_text <$> filter (fun e => matches where_ e = true) (collection W))).

(** [VectorStore.query] *)
Definition vs_query (query_text : string) (n_results : nat)
    (where_ : option (string * MetaVal)) : M (list Hit) :=
  fun tr =>
    (inr (collection_query query_text n_results where_),
     tr ++ [EvQuery query_text n_results where_]).

(** ** The query analyzer ([query_analyzer.py]) *)

(** A float literal [n/d]. *)
Definition float (n : Z) (d : positive) : Qc := Q2Qc (n # d).

Definition analyzer_system_prompt : string :=
  let q := Text.quoted in
  Text.join Text.nl [
    "You are a query analysis expert for product comparison systems.";
    "Analyze the user's query and return ONLY valid JSON with this structure:";
    "";
    "{";
    "    " +:+ q "query_type" +:+ ": " +:+ q "comparison" +:+ " or " +:+ q "specific"
           +:+ " or " +:+ q "general" +:+ ",";
    "    " +:+ q "aspects" +:+ ": [" +:+ q "aspect1" +:+ ", " +:+ q "aspect2" +:+ "],";
    "    " +:+ q "entities" +:+ ": [" +:+ q "brand1" +:+ ", " +:+ q "product1" +:+ "],";
    "    " +:+ q "is_comparative" +:+ ": true or false,";
    "    " +:+ q "expanded_query" +:+ ": " +:+ q "expanded version of query";
    "}";
    "";
    "Guidelines:";
    "- query_type: ";
    "  * " +:+ q "comparison" +:+ " if comparing multiple products";
    "  * " +:+ q "specific" +:+ " if asking about one product feature";
    "  * " +:+ q "general" +:+ " for broad questions";
    "  ";
    "- aspects: Extract what user wants to know about (price, camera, battery, display, performance, design, reviews, etc.)";
    "";
    "- entities: Extract specific brands, product names, or models mentioned";
    "";
    "- is_comparative: true if query compares or asks " +:+ q "which/better/best";
    "";
    "- expanded_query: Rewrite query with more keywords for better search";
    "  Example: " +:+ q "which is cheaper?" +:+ " → "
                  +:+ q "price comparison cost budget affordable";
    "";
    "Return ONLY the JSON object."
  ].

Definition analyzer_user_prompt (query : string) : string :=
  Text.join Text.nl [
    "Analyze this query:";
    "";
    "Query: " +:+ query;
    "";
    "Return the JSON analysis."
  ].

Definition comparative_keywords : list string :=
  ["compare"; "versus"; "vs"; "which"; "better"; "best";
   "difference"; "between"; "or"].

Definition specific_keywords : list string := ["tell me"; "what is"; "how"].

(** The dict [aspect_keywords], in its insertion order. *)
Definition aspect_keywords : list (string * list string) :=
  [("price", ["price"; "cost"; "expensive"; "cheap"; "budget"]);
   ("camera", ["camera"; "photo"; "picture"; "video"]);
   ("battery", ["battery"; "charge"; "power"]);
   ("display", ["display"; "screen"; "resolution"]);
   ("performance", ["performance"; "speed"; "fast"; "processor"]);
   ("design", ["design"; "look"; "style"; "build"])].

(** [QueryAnalyzer._fallback_analysis] *)
Definition _fallback_analysis (query : string) : QueryAnalysis :=
  let query_lower := Text.lower query in
  let is_comparative := Text.any_in comparative_keywords query_lower in
  let query_type :=
    if is_comparative then "comparison"
    else if Text.any_in specific_keywords query_lower then "specific"
    else "general" in
  let aspects :=
    fst <$> filter (fun '(aspect, keywords) => Text.any_in keywords query_lower = true)
              aspect_keywords in
  {| original_query := query;
     query_type := query_type;
     aspects := aspects;
     entities := [];
     is_comparative := is_comparative;
     expanded_query := query |}.

(** [json.loads(response)] *)
Definition loads (response : string) : M JsonDoc :=
  match json_loads W response with
  | Some data => ret data
  | None => raise JSONDecodeError
  end.

(** [QueryAnalyzer.analyze] *)
Definition analyze (query : string) : M QueryAnalysis :=
  try_except
    (response <- generate_json (analyzer_user_prompt query)
                   analyzer_system_prompt (float 1 10) ;;
     data <- loads response ;;
     match data with
     | JObject obj =>
         ret {| original_query := query;
                query_type := default "general" (j_query_type obj);
                aspects := default [] (j_aspects obj);
                entities := default [] (j_entities obj);
                is_comparative := default false (j_is_comparative obj);
                expanded_query := default query (j_expanded_query obj) |}
     | JOther => raise AttributeError
     end)
    (fun _ => ret (_fallback_analysis query)).

(** ** The retriever ([retriever.py]) *)

(** Python's [max(a, b)]: the first argument unless the second is larger. *)
Definition py_max (a b : Qc) : Qc := if decide (a < b)%Qc then b else a.

(** The loop of step 3 of [retrieve] over the rows of the index answer. *)
Fixpoint collect_results (min_relevance : Qc) (raw_results : list Hit)
    : Exn + list RetrievalResult :=
  match raw_results with
  | [] => inr []
  | h :: rest =>
      let distance := h_distance h in
      let relevance := py_max 0%Qc (1 - distance)%Qc in
      if decide (relevance < min_relevance)%Qc then
        collect_results min_relevance rest
      else
        match meta_text (h_metadata h) "title" with
        | inl e => inl e
        | inr title =>
            match meta_text (h_metadata h) "brand" with
            | inl e => inl e
            | inr brand_ =>
                match collect_results min_relevance rest with
                | inl e => inl e
                | inr results_ =>
                    inr ({| product_title := title;
                            brand := brand_;
                            content := h_document h;
                            metadata := h_metadata h;
                            relevance_score := relevance |} :: results_)
                end
            end
        end
  end.

(** One iteration of the loop of [_ensure_diversity] on the pair
    [(seen_products, diverse_results)]. *)
Definition diversity_step (max_per_product : Z)
    (st : gset string * list RetrievalResult) (result : RetrievalResult)
    : gset string * list RetrievalResult :=
  let '(seen_products, diverse_results) := st in
  if decide (product_title result ∉ seen_products) then
    ({[product_title result]} ∪ seen_products, diverse_results ++ [result])
  else if decide (Z.of_nat (length (filter
                     (fun r => product_title r = product_title result)
                     diverse_results)) < max_per_product)%Z then
    (seen_products, diverse_results ++ [result])
  else
    (seen_products, diverse_results).

(** [SmartRetriever._ensure_diversity] *)
Definition _ensure_diversity (results_ : list RetrievalResult)
    (max_per_product : Z) : list RetrievalResult :=
  (foldl (diversity_step max_per_product) (∅, []) results_).2.

(** [SmartRetriever.retrieve] *)
Definition retrieve (query_ : string) (max_results : nat) (min_relevance : Qc)
    : M RetrievalContext :=
  analysis <- analyze query_ ;;
  let search_query := expanded_query analysis in
  raw_results <- vs_query search_query max_results None ;;
  results_ <- lift (collect_results min_relevance raw_results) ;;
  let results_ :=
    if is_comparative analysis && (0 <? length results_)%nat
    then _ensure_diversity results_ 1%Z
    else results_ in
  ret {| query := query_;
         query_analysis := analysis;
         results := results_;
         total_retrieved := length results_ |}.

(** The loop of the targeted branch of [retrieve_for_comparison]. *)
Fixpoint targeted_results (query_ : string) (product_urls : list string)
    : M (list RetrievalResult) :=
  match product_urls with
  | [] => ret []
  | url :: rest =>
      raw <- vs_query query_ 1 (Some ("url", MStr url)) ;;
      match raw with
      | [] => targeted_results query_ rest
      | h :: _ =>
          title <- lift (meta_text (h_metadata h) "title") ;;
          brand_ <- lift (meta_text (h_metadata h) "brand") ;;
          results_ <- targeted_results query_ rest ;;
          ret ({| product_title := title;
                  brand := brand_;
                  content := h_document h;
                  metadata := h_metadata h;
                  relevance_score := (1 - h_distance h)%Qc |} :: results_)
      end
  end.

(** [if product_urls:] on an optional list. *)
Definition truthy {A} (l : option (list A)) : bool :=
  match l with
  | Some (_ :: _) => true
  | _ => false
  end.

(** [SmartRetriever.retrieve_for_comparison] *)
Definition retrieve_for_comparison (query_ : string)
    (product_urls : option (list string)) : M RetrievalContext :=
  if truthy product_urls then
    results_ <- targeted_results query_ (default [] product_urls) ;;
    analysis <- analyze query_ ;;
    ret {| query := query_;
           query_analysis := analysis;
           results := results_;
           total_retrieved := length results_ |}
  else
    retrieve query_ 20 0%Qc.

(** [SmartRetriever.format_context_for_llm] *)
Definition format_context_for_llm (context : RetrievalContext)
    (max_products : nat) : string :=
  let lines :=
    ["# Product Information";
     "";
     "Query: " +:+ query context;
     "Query Type: " +:+ query_type (query_analysis context);
     ""] in
  let lines :=
    match aspects (query_analysis context) with
    | [] => lines
    | _ :: _ =>
        lines ++ ["Focus Areas: " +:+ Text.join ", " (aspects (query_analysis context));
                  ""]
    end in
  let lines := lines ++ ["---"; ""] in
  let lines :=
    lines ++
    mjoin (imap (fun i result =>
                   ["## Product " +:+ pretty (S i) +:+ ": " +:+ product_title result;
                    "Brand: " +:+ brand result;
                    "Relevance: " +:+ fmt_percent W (relevance_score result);
                    "";
                    content result;
                    "";
                    "---";
                    ""])
             (get_top_k context max_products)) in
  Text.join Text.nl lines.

(** ** The synthesizer ([synthesizer.py]) *)

(** A metadata value inside an f-string. *)
Definition py_str (v : MetaVal) : string :=
  match v with
  | MStr s => s
  | MInt z => pretty z
  | MFloat q => fmt_float W q
  end.

(** [d[key]] *)
Definition getitem (md : Metadata) (key : string) : Exn + MetaVal :=
  match md !! key with
  | Some v => inr v
  | None => inl (KeyError key)
  end.

(** The dict literal assigned to [table[result.product_title]]. *)
Definition table_row (result : RetrievalResult) : Exn + TableRow :=
  match getitem (metadata result) "brand" with
  | inl e => inl e
  | inr brand_ =>
      match getitem (metadata result) "currency" with
      | inl e => inl e
      | inr currency =>
          match getitem (metadata result) "price" with
          | inl e => inl e
          | inr price =>
              inr {| row_brand := brand_;
                     row_price := py_str currency +:+ py_str price;
                     row_rating := default (MStr "N/A") (metadata result !! "rating") |}
          end
      end
  end.

(** The loop of [_extract_comparison_table], from the table built so far. *)
Fixpoint fill_table (table : gmap string TableRow) (rs : list RetrievalResult)
    : Exn + gmap string TableRow :=
  match rs with
  | [] => inr table
  | result :: rest =>
      match table_row result with
      | inl e => inl e
      | inr row => fill_table (<[product_title result := row]> table) rest
      end
  end.

(** [ComparisonSynthesizer._extract_comparison_table] *)
Definition _extract_comparison_table (answer_ : string) (context : RetrievalContext)
    : option (gmap string TableRow) :=
  if (length (results context) <? 2)%nat then None
  else
    match fill_table ∅ (take 5 (results context)) with
    | inr table => Some table
    | inl _ => None
    end.

(** [[r.metadata["url"] for r in context.results]] *)
Fixpoint source_keys (rs : list RetrievalResult) : Exn + list string :=
  match rs with
  | [] => inr []
  | r :: rest =>
      match meta_text (metadata r) "url" with
      | inl e => inl e
      | inr url =>
          match source_keys rest with
          | inl e => inl e
          | inr urls => inr (url :: urls)
          end
      end
  end.

Definition comparison_system_prompt : string :=
  Text.join Text.nl [
    "You are an expert product comparison analyst. ";
    "Your job is to provide clear, objective comparisons based on the given product information.";
    "";
    "Guidelines:";
    "1. Be factual and cite specific information from the products";
    "2. Organize comparisons clearly (use tables/bullet points when helpful)";
    "3. Highlight key differences and similarities";
    "4. Provide a balanced view - mention both pros and cons";
    "5. If specific information is not available, say so clearly";
    "6. Don't make up specifications or features";
    "7. Focus on the aspects the user asked about";
    "8. End with a brief summary/recommendation if appropriate";
    "";
    "Format your response in a clear, structured way."
  ].

Definition comparison_user_prompt (query_ formatted_context : string) : string :=
  Text.join Text.nl [
    "Based on the product information below, answer this comparison query:";
    "";
    "Query: " +:+ query_;
    "";
    "Product Information:";
    formatted_context;
    "";
    "Provide a comprehensive comparison addressing the user's query.";
    "Structure your answer with:";
    "1. Direct answer to the query";
    "2. Detailed comparison of relevant aspects";
    "3. Key differences highlighted";
    "4. Brief summary/recommendation";
    "";
    "Your response:"
  ].

(** [ComparisonSynthesizer._generate_comparison] *)
Definition _generate_comparison (query_ : string) (context : RetrievalContext)
    : M ComparisonResult :=
  let formatted_context := format_context_for_llm context 5 in
  try_except
    (answer_ <- generate (comparison_user_prompt query_ formatted_context)
                  comparison_system_prompt (float 3 10) 2000 ;;
     let comparison_table_ := _extract_comparison_table answer_ context in
     citations_ <- lift (source_keys (results context)) ;;
     ret {| cr_query := query_;
            answer := answer_;
            products_compared := get_all_products context;
            comparison_table := comparison_table_;
            summary := None;
            citations := citations_ |})
    (fun e =>
       ret {| cr_query := query_;
              answer := "Error generating comparison: " +:+ exn_str e;
              products_compared := get_all_products context;
              comparison_table := None;
              summary := None;
              citations := [] |}).

Definition answer_system_prompt : string :=
  Text.join Text.nl [
    "You are a helpful product information assistant.";
    "Answer the user's question based on the provided product information.";
    "";
    "Guidelines:";
    "1. Be accurate and cite specific details";
    "2. If information is not available, say so";
    "3. Be concise but complete";
    "4. Use bullet points or lists when appropriate";
    "5. Don't make up information"
  ].

Definition answer_user_prompt (query_ formatted_context : string) : string :=
  Text.join Text.nl [
    "Answer this question based on the product information:";
    "";
    "Query: " +:+ query_;
    "";
    "Product Information:";
    formatted_context;
    "";
    "Your answer:"
  ].

(** [ComparisonSynthesizer._generate_answer] *)
Definition _generate_answer (query_ : string) (context : RetrievalContext)
    : M ComparisonResult :=
  let formatted_context := format_context_for_llm context 3 in
  try_except
    (answer_ <- generate (answer_user_prompt query_ formatted_context)
                  answer_system_prompt (float 2 10) 1500 ;;
     citations_ <- lift (source_keys (results context)) ;;
     ret {| cr_query := query_;
            answer := answer_;
            products_compared := get_all_products context;
            comparison_table := None;
            summary := None;
            citations := citations_ |})
    (fun e =>
       ret {| cr_query := query_;
              answer := "Error generating answer: " +:+ exn_str e;
              products_compared := get_all_products context;
              comparison_table := None;
              summary := None;
              citations := [] |}).

(** The answer of [compare] when nothing was retrieved. *)
Definition no_products_result (query_ : string) : ComparisonResult :=
  {| cr_query := query_;
     answer := "I couldn't find any products to compare. Please add products first.";
     products_compared := [];
     comparison_table := None;
     summary := Some "No products found.";
     citations := [] |}.

(** Step 1 of [compare]: which retrieval runs. *)
Definition compare_context (query_ : string) (product_urls : option (list string))
    : M RetrievalContext :=
  if truthy product_urls then retrieve_for_comparison query_ product_urls
  else retrieve query_ 10 0%Qc.

(** [ComparisonSynthesizer.compare] *)
Definition compare (query_ : string) (product_urls : option (list string))
    : M ComparisonResult :=
  context <- compare_context query_ product_urls ;;
  match results context with
  | [] => ret (no_products_result query_)
  | _ :: _ =>
      if is_comparative (query_analysis context)
      then _generate_comparison query_ context
      else _generate_answer query_ context
  end.

End Pipeline.

(** ** The metadata written by [VectorStore.add_product] *)

(** The fields of [ProductInfo] that reach the metadata. *)
Record ProductInfo : Type := mkProductInfo {
  p_url : string;
  p_title : string;
  p_brand : option string;
  p_price : option string;
  p_currency : option string;
  p_category : option string;
  p_rating : option Qc;
  p_review_count : option Z
}.

(** [x or d] on optional text: [None] and the empty text are falsy. *)
Definition or_text (x : option string) (d : string) : string :=
  match x with
  | Some (String c s) => String c s
  | _ => d
  end.

(** The [metadata] dict of [add_product]. *)
Definition product_metadata (product : ProductInfo) : Metadata :=
  <["url" := MStr (p_url product)]>
  (<["title" := MStr (p_title product)]>
  (<["brand" := MStr (or_text (p_brand product) "Unknown")]>
  (<["price" := MStr (or_text (p_price product) "N/A")]>
  (<["currency" := MStr (or_text (p_currency product) "")]>
  (<["category" := MStr (or_text (p_category product) "Unknown")]>
  (<["rating" := MFloat (default 0%Qc (p_rating product))]>
  (<["review_count" := MInt (default 0%Z (p_review_count product))]> ∅))))))).

(** A metadata dict with the text keys the retriever and the synthesizer
    read. *)
Definition meta_wf (md : Metadata) : Prop :=
  (exists s, md !! "url" = Some (MStr s)) /\
  (exists s, md !! "title" = Some (MStr s)) /\
  (exists s, md !! "brand" = Some (MStr s)).

(** A collection all of whose entries have such metadata. *)
Definition store_wf (W : World) : Prop :=
  Forall (fun e => meta_wf (e_metadata e)) (collection W).

(** ** Specification vocabulary *)

(** [kw] occurs in [s]: the meaning of Python's [kw in s]. *)
Definition occurs (kw s : string) : Prop :=
  exists pre post, s = pre +:+ kw +:+ post.

(** [clamp(x, lo, hi)] *)
Definition clamp (x lo hi : Qc) : Qc :=
  if decide (x < lo)%Qc then lo else if decide (hi < x)%Qc then hi else x.

(** The one generation call [analyze] makes. *)
Definition analyzer_call (query_ : string) : Event :=
  EvGenerate (analyzer_user_prompt query_)
    (analyzer_system_prompt +:+ Text.nl +:+ Text.nl +:+
     "You MUST respond with valid JSON only. No other text.")
    (float 1 10) 3000.

(** The answer of the generation service to the call of [analyze]. *)
Definition classifier_answer (W : World) (tr : list Event) (query_ : string)
    : string + string :=
  llm_generate W tr (analyzer_user_prompt query_)
    (analyzer_system_prompt +:+ Text.nl +:+ Text.nl +:+
     "You MUST respond with valid JSON only. No other text.")
    (float 1 10) 3000.

(** The classifier errors: the service raises, or its text does not parse,
    or it parses to something that is not an object. *)
Definition classifier_errors (W : World) (tr : list Event) (query_ : string) : Prop :=
  match classifier_answer W tr query_ with
  | inl _ => True
  | inr response =>
      json_loads W response = None \/ json_loads W response = Some JOther
  end.

(** The product titles of a result list, in order. *)
Definition titles (l : list RetrievalResult) : list string := product_title <$> l.

(** How many results of [l] carry the title [t]. *)
Definition count_title (t : string) (l : list RetrievalResult) : nat :=
  length (filter (fun r => product_title r = t) l).

(** The diversity filter in the words of the specification, for the cap 1:
    the entry at rank [i] is kept exactly when no entry of lower rank has its
    product title; kept entries stay in rank order. *)
Definition first_per_title (l : list RetrievalResult) : list RetrievalResult :=
  mjoin (imap (fun i r =>
                 if decide (product_title r ∈ titles (take i l)) then [] else [r])
           l).

(** The loop of [_ensure_diversity] as a recursion on the rest of the input:
    [acc] is what has been kept so far. *)
Fixpoint keep_capped (k : Z) (acc l : list RetrievalResult) : list RetrievalResult :=
  match l with
  | [] => []
  | r :: l' =>
      if decide (Z.of_nat (count_title (product_title r) acc) < Z.max 1 k)%Z
      then r :: keep_capped k (acc ++ [r]) l'
      else keep_capped k acc l'
  end.

(** The targeted lookup of one source key. *)
Definition lookup_call (query_ url : string) : Event :=
  EvQuery query_ 1 (Some ("url", MStr url)).

(** Some stored entry has the source key [url]. *)
Definition has_entry (W : World) (url : string) : Prop :=
  Exists (fun e => e_metadata e !! "url" = Some (MStr url)) (collection W).

Global Instance has_entry_dec W url : Decision (has_entry W url).
Proof. unfold has_entry. apply _. Defined.

(** The source key of a result, as stored. *)
Definition source_key (r : RetrievalResult) : option MetaVal := metadata r !! "url".

(** The result [r] is built from the index row [h], with the relevance
    [rel] of its distance. *)
Definition built_from (rel : Qc -> Qc) (h : Hit) (r : RetrievalResult) : Prop :=
  metadata r = h_metadata h /\
  content r = h_document h /\
  h_metadata h !! "title" = Some (MStr (product_title r)) /\
  h_metadata h !! "brand" = Some (MStr (brand r)) /\
  relevance_score r = rel (h_distance h).

(** The relevance [retrieve] computes, and the one of the targeted branch of
    [retrieve_for_comparison]. *)
Definition retrieve_relevance (d : Qc) : Qc := py_max 0%Qc (1 - d)%Qc.
Definition targeted_relevance (d : Qc) : Qc := (1 - d)%Qc.

(** The generation call of the synthesis step for a context. *)
Definition synthesis_call (W : World) (query_ : string) (context : RetrievalContext)
    : Event :=
  if is_comparative (query_analysis context) then
    EvGenerate (comparison_user_prompt query_ (format_context_for_llm W context 5))
      comparison_system_prompt (float 3 10) 2000
  else
    EvGenerate (answer_user_prompt query_ (format_context_for_llm W context 3))
      answer_system_prompt (float 2 10) 1500.

(** The answer of the generation service to that call, after the trace [tr]. *)
Definition synthesis_answer (W : World) (tr : list Event) (query_ : string)
    (context : RetrievalContext) : string + string :=
  match synthesis_call W query_ context with
  | EvGenerate prompt system_prompt temperature max_tokens =>
      llm_generate W tr prompt system_prompt temperature max_tokens
  | EvQuery _ _ _ => inl ""
  end.

(** The table row of a result, when its metadata has the keys. *)
Definition the_row (W : World) (r : RetrievalResult) : option TableRow :=
  match table_row W r with
  | inr row => Some row
  | inl _ => None
  end.

(** The last result of [l] with the title [t]. *)
Definition last_titled (t : string) (l : list RetrievalResult) : option RetrievalResult :=
  last (filter (fun r => product_title r = t) l).

(** The metadata of [r] has the keys table extraction reads with [[]]. *)
Definition has_table_keys (r : RetrievalResult) : Prop :=
  is_Some (metadata r !! "brand") /\
  is_Some (metadata r !! "currency") /\
  is_Some (metadata r !! "price").

Global Instance has_table_keys_dec r : Decision (has_table_keys r).
Proof. unfold has_table_keys. apply _. Defined.

(** ** A small store for the examples *)

Module Demo.

Definition phone_a : ProductInfo :=
  {| p_url := "https://shop.example/a"; p_title := "Phone A";
     p_brand := Some "Acme"; p_price := Some "100"; p_currency := Some "$";
     p_category := None; p_rating := Some (float 9 2); p_review_count := Some 12%Z |}.

Definition phone_b : ProductInfo :=
  {| p_url := "https://shop.example/b"; p_title := "Phone B";
     p_brand := Some "Bolt"; p_price := Some "200"; p_currency := Some "$";
     p_category := None; p_rating := None; p_review_count := None |}.

(** The first phone again, sold by another shop. *)
Definition phone_a_other : ProductInfo :=
  {| p_url := "https://other.example/a"; p_title := "Phone A";
     p_brand := Some "Acme Imports"; p_price := Some "95"; p_currency := Some "EUR";
     p_category := None; p_rating := Some (float 4 1); p_review_count := Some 3%Z |}.

Definition entry (doc_id : string) (product : ProductInfo) : Entry :=
  {| e_id := doc_id;
     e_document := "# " +:+ p_title product;
     e_metadata := product_metadata product |}.

Definition entries : list Entry :=
  [entry "1" phone_a; entry "2" phone_b; entry "3" phone_a_other].

(** Distances by entry: 1/4, 3/2 and 1/2, whatever the query. *)
Definition dist (query_text : string) (e : Entry) : Qc :=
  if decide (e_id e = "1") then float 1 4
  else if decide (e_id e = "2") then float 3 2
  else float 1 2.

(** A generation service that is down. *)
Definition llm_down : list Event -> string -> string -> Qc -> nat -> string + string :=
  fun _ _ _ _ _ => inl "LLM generation failed: Connection error.".

(** A generation service that answers every call with an empty object. *)
Definition llm_braces : list Event -> string -> string -> Qc -> nat -> string + string :=
  fun _ _ _ _ _ => inr "{}".

(** A decoder that knows the empty object only. *)
Definition loads_braces (response : string) : option JsonDoc :=
  if decide (response = "{}") then
    Some (JObject {| j_query_type := None; j_aspects := None; j_entities := None;
                     j_is_comparative := None; j_expanded_query := None |})
  else None.

Definition world (llm : list Event -> string -> string -> Qc -> nat -> string + string)
    (stored : list Entry) : World :=
  {| llm_generate := llm;
     json_loads := loads_braces;
     collection := stored;
     distance := dist;
     fmt_percent := fun _ => "";
     fmt_float := fun _ => "" |}.

(** A retrieval result for a stored product. *)
Definition result (product : ProductInfo) (score : Qc) : RetrievalResult :=
  {| product_title := p_title product;
     brand := or_text (p_brand product) "Unknown";
     content := "# " +:+ p_title product;
     metadata := product_metadata product;
     relevance_score := score |}.

(** A ranked list in which the first phone appears three times. *)
Definition ranked : list RetrievalResult :=
  [result phone_a (float 3 4); result phone_a_other (float 1 2);
   result phone_b 0%Qc; result phone_a (float 1 4)].

(** The service is down for the classifier (which asks for 3000 tokens)
    and answers the synthesis calls. *)
Definition llm_synthesis_only : list Event -> string -> string -> Qc -> nat -> string + string :=
  fun _ _ _ _ max_tokens =>
    if decide (max_tokens = 3000) then inl "LLM generation failed: Connection error."
    else inr "Phone A is cheaper.".

End Demo.

(** ** Further operations of the retriever and the synthesizer *)

(** [RetrievalContext.get_by_product]: the first result with the title. *)
Definition get_by_product (context : RetrievalContext) (product_title_ : string)
    : option RetrievalResult :=
  snd <$> list_find (fun result => product_title result = product_title_)
            (results context).




(** [f"Compare the {aspect} of these products"] *)
Definition aspect_query (aspect : string) : string :=
  "Compare the " +:+ aspect +:+ " of these products".


(** ** The store operations of [vector_store.py]

    The Chroma collection is the list of its entries in insertion order:
    [collection.add] appends, [collection.get(where=...)] filters,
    [collection.delete(ids=...)] removes the entries with those ids,
    [collection.count()] is the length.  The ids of [uuid.uuid4()] and the
    text of [ProductInfo.to_text] are supplied by the caller of the model. *)

(** The [metadata] dict of [add_products]. *)
Definition batch_metadata (product : ProductInfo) : Metadata :=
  <["url" := MStr (p_url product)]>
  (<["title" := MStr (p_title product)]>
  (<["brand" := MStr (or_text (p_brand product) "Unknown")]>
  (<["price" := MStr (or_text (p_price product) "N/A")]>
  (<["currency" := MStr (or_text (p_currency product) "")]>
  (<["category" := MStr (or_text (p_category product) "Unknown")]>
  (<["rating" := MFloat (match p_rating product with
                         | Some q => if decide (q = 0%Qc) then 0%Qc else q
                         | None => 0%Qc
                         end)]>
  (<["review_count" := MInt (match p_review_count product with
                             | Some n => if decide (n = 0%Z) then 0%Z else n
                             | None => 0%Z
                             end)]> ∅))))))).

(** [VectorStore.add_product]: the new id and the collection afterwards. *)
Definition add_product (to_text : ProductInfo -> string) (doc_id : string)
    (product : ProductInfo) (coll : list Entry) : string * list Entry :=
  (doc_id,
   coll ++ [{| e_id := doc_id;
               e_document := to_text product;
               e_metadata := product_metadata product |}]).

(** [VectorStore.add_products]: the new ids, one per product, and the
    collection afterwards. *)
Definition add_products (to_text : ProductInfo -> string) (doc_ids : list string)
    (products : list ProductInfo) (coll : list Entry) : list string * list Entry :=
  (fst <$> zip doc_ids products,
   coll ++ ((fun '(doc_id, product) =>
               {| e_id := doc_id;
                  e_document := to_text product;
                  e_metadata := batch_metadata product |})
            <$> zip doc_ids products)).

(** [VectorStore.count] *)
Definition count (coll : list Entry) : nat := length coll.

(** [VectorStore.get_all_products]: ids, documents and metadatas. *)
Definition get_all_products_of (coll : list Entry)
    : list string * list string * list Metadata :=
  (e_id <$> coll, e_document <$> coll, e_metadata <$> coll).

(** [VectorStore.delete_by_url]: the number of deleted items and the
    collection afterwards. *)
Definition delete_by_url (url : string) (coll : list Entry) : nat * list Entry :=
  let found := filter (fun e => matches (Some ("url", MStr url)) e = true) coll in
  match found with
  | [] => (0, coll)
  | _ :: _ =>
      (length found, filter (fun e => e_id e ∉ (e_id <$> found)) coll)
  end.

(** [VectorStore.clear]: the collection is deleted and created anew. *)
Definition clear (coll : list Entry) : list Entry := [].

(** The environment with another collection. *)
Definition with_collection (W : World) (coll : list Entry) : World :=
  {| llm_generate := llm_generate W;
     json_loads := json_loads W;
     collection := coll;
     distance := distance W;
     fmt_percent := fmt_percent W;
     fmt_float := fmt_float W |}.

(** ** The generation client over the chat API ([llm_client.py]) *)

Module Client.

(** One chat message. *)
Record Message : Type := mkMessage {
  role : string;
  msg_content : string
}.

(** The chat completion endpoint: the text of the first choice, or the
    message of the exception it raises. *)
Definition Endpoint : Type := list Message -> Qc -> nat -> string + string.

(** The characters [str.strip] removes from ASCII text. *)
Definition is_space (c : Ascii.ascii) : bool :=
  let n := Ascii.nat_of_ascii c in
  ((9 <=? n)%nat && (n <=? 13)%nat) || ((28 <=? n)%nat && (n <=? 32)%nat).

(** [s.lstrip()] *)
Fixpoint lstrip (s : string) : string :=
  match s with
  | EmptyString => EmptyString
  | String c s' => if is_space c then lstrip s' else String c s'
  end.

(** [s.rstrip()] *)
Fixpoint rstrip (s : string) : string :=
  match s with
  | EmptyString => EmptyString
  | String c s' =>
      match rstrip s' with
      | EmptyString => if is_space c then EmptyString else String c EmptyString
      | String d t => String c (String d t)
      end
  end.

(** [s.strip()] *)
Definition strip (s : string) : string := rstrip (lstrip s).

(** The [messages] list of [generate]: the system message only for a truthy
    system prompt. *)
Definition messages_of (prompt : string) (system_prompt : option string)
    : list Message :=
  match system_prompt with
  | Some (String c s) => [{| role := "system"; msg_content := String c s |}]
  | _ => []
  end ++ [{| role := "user"; msg_content := prompt |}].

(** [LLMClient.generate] *)
Definition generate (api : Endpoint) (prompt : string) (system_prompt : option string)
    (temperature : Qc) (max_tokens : nat) : string + string :=
  match api (messages_of prompt system_prompt) temperature max_tokens with
  | inr content_ => inr (strip content_)
  | inl e => inl ("LLM generation failed: " +:+ e)
  end.

(** [LLMClient.generate_json] *)
Definition generate_json (api : Endpoint) (prompt : string)
    (system_prompt : option string) (temperature : Qc) : string + string :=
  let system_prompt :=
    match system_prompt with
    | Some (String c s) =>
        String c s +:+ Text.nl +:+ Text.nl +:+
        "You MUST respond with valid JSON only. No other text."
    | _ => "You MUST respond with valid JSON only. No other text."
    end in
  generate api prompt (Some system_prompt) temperature 3000.

End Client.

(** Results by non-increasing relevance. *)
Definition by_relevance (r1 r2 : RetrievalResult) : Prop :=
  (relevance_score r2 <= relevance_score r1)%Qc.

(** The entry carries the source key [url]. *)
Definition carries_url (url : string) (e : Entry) : Prop :=
  e_metadata e !! "url" = Some (MStr url).

Global Instance carries_url_dec url e : Decision (carries_url url e).
Proof. unfold carries_url. apply _. Defined.

(** The environment whose generation service is the client over a chat
    endpoint (which may answer differently as the calls go by). *)
Definition client_world (api : list Event -> Client.Endpoint) (W : World) : World :=
  {| llm_generate := fun tr prompt system_prompt temperature max_tokens =>
       Client.generate (api tr) prompt (Some system_prompt) temperature max_tokens;
     json_loads := json_loads W;
     collection := collection W;
     distance := distance W;
     fmt_percent := fmt_percent W;
     fmt_float := fmt_float W |}.

(** ** Text lemmas *)

Lemma append_empty (t : string) : "" +:+ t = t.
Proof. reflexivity. Qed.

Lemma append_cons (c : Ascii.ascii) (s t : string) :
  String c s +:+ t = String c (s +:+ t).
Proof. reflexivity. Qed.

Lemma prefix_spec (kw s : string) :
  String.prefix kw s = true <-> exists post, s = kw +:+ post.
Proof.
  revert s. induction kw as [|c kw IH]; intros s.
  - split; [intros _; exists s; reflexivity|]. intros _. by destruct s.
  - destruct s as [|d s]; simpl.
    + split; [done|]. intros [post Hp]. discriminate Hp.
    + destruct (Ascii.ascii_dec c d) as [->|Hne].
      * rewrite IH. split; intros [post Hp]; exists post.
        -- by rewrite append_cons, Hp.
        -- rewrite append_cons in Hp. by injection Hp.
      * split; [done|]. intros [post Hp]. rewrite append_cons in Hp.
        injection Hp as Hc _. by destruct Hne.
Qed.

Lemma contains_empty (kw : string) :
  Text.contains kw "" = String.prefix kw "" || false.
Proof. reflexivity. Qed.

Lemma contains_cons (kw : string) (d : Ascii.ascii) (s : string) :
  Text.contains kw (String d s) = String.prefix kw (String d s) || Text.contains kw s.
Proof. reflexivity. Qed.

Lemma contains_spec (kw s : string) : Text.contains kw s = true <-> occurs kw s.
Proof.
  induction s as [|d s IH].
  - rewrite contains_empty, orb_false_r, prefix_spec. split.
    + intros [post Hp]. exists "", post. by rewrite append_empty.
    + intros (pre & post & Hp). destruct pre as [|x pre]; [|discriminate Hp].
      by exists post.
  - rewrite contains_cons, orb_true_iff, IH, prefix_spec. split.
    + intros [[post Hp]|(pre & post & Hp)].
      * exists "", post. by rewrite append_empty.
      * exists (String d pre), post. by rewrite append_cons, Hp.
    + intros (pre & post & Hp). destruct pre as [|x pre].
      * left. by exists post.
      * right. rewrite append_cons in Hp. injection Hp as _ Hp. by exists pre, post.
Qed.

Lemma any_in_spec (kws : list string) (s : string) :
  Text.any_in kws s = true <-> exists kw, kw ∈ kws /\ occurs kw s.
Proof.
  unfold Text.any_in. rewrite existsb_exists. split.
  - intros (kw & Hin & Hc). exists kw. split; [by apply list_elem_of_In|].
    by apply contains_spec.
  - intros (kw & Hin & Hc). exists kw. split; [by apply list_elem_of_In|].
    by apply contains_spec.
Qed.

(** ** The query analyzer *)

Section AnalyzerFacts.
Context (W : World).

Lemma analyze_unfold (query_ : string) (tr : list Event) :
  analyze W query_ tr =
    (inr match classifier_answer W tr query_ with
         | inl _ => _fallback_analysis query_
         | inr response =>
             match json_loads W response with
             | Some (JObject obj) =>
                 {| original_query := query_;
                    query_type := default "general" (j_query_type obj);
                    aspects := default [] (j_aspects obj);
                    entities := default [] (j_entities obj);
                    is_comparative := default false (j_is_comparative obj);
                    expanded_query := default query_ (j_expanded_query obj) |}
             | _ => _fallback_analysis query_
             end
         end,
     tr ++ [analyzer_call query_]).
Proof.
  unfold analyze, try_except, bind, generate_json, generate, loads,
    classifier_answer, analyzer_call.
  destruct (llm_generate W tr _ _ _ _) as [msg|response]; [done|].
  destruct (json_loads W response) as [[obj|]|]; done.
Qed.

(** [analyze] never raises and makes exactly one generation call. *)
Lemma analyze_total (query_ : string) (tr : list Event) :
  exists a, analyze W query_ tr = (inr a, tr ++ [analyzer_call query_]).
Proof. rewrite analyze_unfold. eauto. Qed.

Lemma analyze_fallback (query_ : string) (tr : list Event) :
  classifier_errors W tr query_ ->
  analyze W query_ tr = (inr (_fallback_analysis query_), tr ++ [analyzer_call query_]).
Proof.
  unfold classifier_errors. rewrite analyze_unfold.
  destruct (classifier_answer W tr query_) as [msg|response]; [done|].
  by intros [-> | ->].
Qed.

Lemma fallback_aspects_spec (query_ : string) (t : string) :
  t ∈ aspects (_fallback_analysis query_) <->
  exists kws, (t, kws) ∈ aspect_keywords /\
    exists kw, kw ∈ kws /\ occurs kw (Text.lower query_).
Proof.
  unfold _fallback_analysis. cbn [aspects]. rewrite list_elem_of_fmap. split.
  - intros ([a kws] & -> & Hin). apply list_elem_of_filter in Hin as [Hany Hin].
    exists kws. split; [done|]. by apply any_in_spec.
  - intros (kws & Hin & Hany). exists (t, kws). split; [done|].
    apply list_elem_of_filter. split; [|done]. by apply any_in_spec.
Qed.

Lemma fallback_aspects_sublist (query_ : string) :
  aspects (_fallback_analysis query_) `sublist_of`
    ["price"; "camera"; "battery"; "display"; "performance"; "design"].
Proof.
  unfold _fallback_analysis. cbn [aspects].
  change ["price"; "camera"; "battery"; "display"; "performance"; "design"]
    with (fst <$> aspect_keywords).
  apply fmap_sublist, sublist_filter.
Qed.

End AnalyzerFacts.

(** ** Diversity filtering *)

Section Diversity.
Implicit Types (l acc : list RetrievalResult) (t : string) (k : Z).

Lemma count_title_app t acc l :
  count_title t (acc ++ l) = count_title t acc + count_title t l.
Proof. unfold count_title. by rewrite filter_app, length_app. Qed.

Lemma count_title_single t r :
  count_title t [r] = if decide (product_title r = t) then 1 else 0.
Proof.
  unfold count_title. rewrite filter_cons, filter_nil.
  by destruct (decide (product_title r = t)).
Qed.

Lemma count_title_zero t l : count_title t l = 0 <-> t ∉ titles l.
Proof.
  unfold count_title, titles. induction l as [|r l IH].
  - rewrite filter_nil. simpl. split; [intros _; apply not_elem_of_nil|done].
  - rewrite filter_cons, fmap_cons, not_elem_of_cons.
    destruct (decide (product_title r = t)) as [Heq|Hne]; simpl.
    + split; [done|]. intros [Hn _]. by destruct Hn.
    + rewrite IH. split; [by split|by intros [_ ?]].
Qed.

Lemma titles_app acc l : titles (acc ++ l) = titles acc ++ titles l.
Proof. apply fmap_app. Qed.

(** The loop state after the input [l], started with [acc] kept and the
    titles of [acc] seen. *)
Lemma foldl_diversity k (seen : gset string) acc l :
  seen = list_to_set (titles acc) ->
  (foldl (diversity_step k) (seen, acc) l).2 = acc ++ keep_capped k acc l.
Proof.
  revert seen acc. induction l as [|r l IH]; intros seen acc Hseen.
  - simpl. by rewrite app_nil_r.
  - cbn [foldl keep_capped]. unfold diversity_step at 2.
    fold (count_title (product_title r) acc).
    destruct (decide (product_title r ∉ seen)) as [Hnew|Hold].
    + assert (count_title (product_title r) acc = 0) as Hz.
      { apply count_title_zero. intros Hin. apply Hnew. rewrite Hseen.
        by apply elem_of_list_to_set. }
      rewrite Hz. rewrite decide_True by lia.
      rewrite (IH _ (acc ++ [r])).
      * by rewrite <-app_assoc.
      * rewrite titles_app, list_to_set_app_L, Hseen. simpl.
        rewrite (right_id_L ∅ (∪)). apply (comm_L (∪)).
    + assert (count_title (product_title r) acc <> 0) as Hnz.
      { rewrite count_title_zero. intros Hn. apply Hold. rewrite Hseen.
        by rewrite elem_of_list_to_set. }
      destruct (decide (Z.of_nat (count_title (product_title r) acc) < k)%Z).
      * rewrite decide_True by lia.
        rewrite (IH _ (acc ++ [r])).
        -- by rewrite <-app_assoc.
        -- rewrite titles_app, list_to_set_app_L, Hseen. simpl.
           assert (product_title r ∈ (list_to_set (titles acc) : gset string)).
           { rewrite Hseen in Hold. by apply dec_stable. }
           rewrite (right_id_L ∅ (∪)), (comm_L (∪)). symmetry.
           by apply subseteq_union_1_L, singleton_subseteq_l.
      * rewrite decide_False by lia. by apply IH.
Qed.

Lemma ensure_diversity_keep_capped l k :
  _ensure_diversity l k = keep_capped k [] l.
Proof. unfold _ensure_diversity. by rewrite (foldl_diversity k ∅ []). Qed.

(** Filtering the output of the filter again, with no more kept so far
    than the first time, changes nothing. *)
Lemma keep_capped_idem k acc acc' l :
  (forall t, count_title t acc' <= count_title t acc) ->
  keep_capped k acc' (keep_capped k acc l) = keep_capped k acc l.
Proof.
  revert acc acc'. induction l as [|r l IH]; intros acc acc' Hle; [done|].
  cbn [keep_capped].
  destruct (decide (Z.of_nat (count_title (product_title r) acc) < Z.max 1 k)%Z)
    as [Hlt|Hge].
  - cbn [keep_capped]. rewrite decide_True by (specialize (Hle (product_title r)); lia).
    f_equal. apply IH. intros t. rewrite !count_title_app. specialize (Hle t). lia.
  - by apply IH.
Qed.

Lemma keep_capped_sublist k acc l : keep_capped k acc l `sublist_of` l.
Proof.
  revert acc. induction l as [|r l IH]; intros acc; [done|].
  cbn [keep_capped]. case_decide.
  - by apply sublist_skip.
  - by apply sublist_cons.
Qed.

(** With the cap 1 an entry is kept exactly when its title is new. *)
Lemma keep_capped_one_cons acc r l :
  keep_capped 1 acc (r :: l) =
    if decide (product_title r ∈ titles acc) then keep_capped 1 acc l
    else r :: keep_capped 1 (acc ++ [r]) l.
Proof.
  cbn [keep_capped]. pose proof (count_title_zero (product_title r) acc) as Hz.
  destruct (decide (product_title r ∈ titles acc)) as [Hin|Hnin].
  - rewrite decide_False; [done|]. change (Z.max 1 1) with 1%Z.
    assert (count_title (product_title r) acc <> 0) by (rewrite Hz; auto). lia.
  - rewrite decide_True; [done|]. change (Z.max 1 1) with 1%Z.
    assert (count_title (product_title r) acc = 0) by (by apply Hz). lia.
Qed.

Lemma keep_capped_one_titles acc l t :
  t ∈ titles (keep_capped 1 acc l) -> t ∉ titles acc.
Proof.
  revert acc. induction l as [|r l IH]; intros acc.
  - intros Hin. by apply elem_of_nil in Hin.
  - rewrite keep_capped_one_cons. case_decide as Hdec.
    + apply IH.
    + unfold titles at 1. rewrite fmap_cons, elem_of_cons. intros [->|Hin]; [done|].
      apply IH in Hin. rewrite titles_app in Hin.
      intros Hacc. apply Hin, elem_of_app. by left.
Qed.

Lemma keep_capped_one_NoDup acc l : NoDup (titles (keep_capped 1 acc l)).
Proof.
  revert acc. induction l as [|r l IH]; intros acc.
  - apply NoDup_nil_2.
  - rewrite keep_capped_one_cons. case_decide as Hdec; [apply IH|].
    unfold titles. rewrite fmap_cons. apply NoDup_cons_2; [|apply IH].
    intros Hin. apply keep_capped_one_titles in Hin.
    rewrite titles_app in Hin. apply Hin, elem_of_app. right. constructor.
Qed.

Lemma keep_capped_one_first pre acc l :
  (forall t, t ∈ titles acc <-> t ∈ titles pre) ->
  keep_capped 1 acc l =
    mjoin (imap (fun i r =>
                   if decide (product_title r ∈ titles (pre ++ take i l))
                   then [] else [r]) l).
Proof.
  revert pre acc. induction l as [|r l IH]; intros pre acc Hsame; [done|].
  rewrite keep_capped_one_cons, imap_cons. cbn [mjoin list_join take].
  rewrite app_nil_r.
  assert (forall acc', (forall t, t ∈ titles acc' <-> t ∈ titles (pre ++ [r])) ->
    keep_capped 1 acc' l =
    mjoin (imap ((fun i r0 =>
                    if decide (product_title r0 ∈ titles (pre ++ take i (r :: l)))
                    then [] else [r0]) ∘ S) l)) as Hrest.
  { intros acc' Hsame'. rewrite (IH (pre ++ [r]) acc' Hsame').
    f_equal. apply imap_ext. intros i x _. simpl.
    by rewrite <-app_assoc. }
  destruct (decide (product_title r ∈ titles acc)) as [Hin|Hnin].
  - rewrite decide_True by (by apply Hsame). simpl. apply Hrest.
    intros t. rewrite titles_app, Hsame, elem_of_app.
    split; [by left|]. intros [Ht|Ht]; [done|].
    apply list_elem_of_singleton in Ht as ->. by apply Hsame.
  - rewrite decide_False by (by rewrite <-Hsame). simpl. f_equal. apply Hrest.
    intros t. rewrite !titles_app, !elem_of_app, Hsame. done.
Qed.

End Diversity.

(** ** The vector index *)

Section IndexFacts.
Context (W : World).

Lemma collection_query_elem query_ n where_ h :
  h ∈ collection_query W query_ n where_ ->
  exists e, e ∈ collection W /\ matches where_ e = true /\ h = hit_of W query_ e.
Proof.
  unfold collection_query. intros Hin.
  apply (subseteq_take n) in Hin. rewrite merge_sort_Permutation in Hin.
  apply list_elem_of_fmap in Hin as (e & -> & Hin).
  apply list_elem_of_filter in Hin as [Hm Hin]. eauto.
Qed.

Lemma collection_query_length query_ n where_ :
  length (collection_query W query_ n where_) =
    n `min` length (filter (fun e => matches where_ e = true) (collection W)).
Proof.
  unfold collection_query.
  by rewrite length_take, merge_sort_Permutation, length_fmap.
Qed.

Lemma matches_url url e :
  matches (Some ("url", MStr url)) e = true <->
  e_metadata e !! "url" = Some (MStr url).
Proof. unfold matches. by rewrite bool_decide_eq_true. Qed.

(** A targeted lookup answers iff the key is stored. *)
Lemma lookup_nonempty query_ url :
  collection_query W query_ 1 (Some ("url", MStr url)) <> [] <-> has_entry W url.
Proof.
  unfold has_entry. rewrite Exists_exists.
  pose proof (collection_query_length query_ 1 (Some ("url", MStr url))) as Hlen.
  split.
  - intros Hne.
    destruct (collection_query W query_ 1 (Some ("url", MStr url))) as [|h hs] eqn:Hq;
      [done|].
    assert (h ∈ collection_query W query_ 1 (Some ("url", MStr url))) as Hin
      by (rewrite Hq; apply list_elem_of_here).
    apply collection_query_elem in Hin as (e & Hin & Hm & _).
    exists e. split; [done|]. by apply matches_url.
  - intros (e & Hin & Hurl) Hnil. rewrite Hnil in Hlen. simpl in Hlen.
    assert (e ∈ filter (fun e => matches (Some ("url", MStr url)) e = true)
                  (collection W)) as Hf.
    { apply list_elem_of_filter. split; [by apply matches_url|done]. }
    destruct (filter _ (collection W)); [by apply elem_of_nil in Hf|].
    simpl in Hlen. lia.
Qed.

(** The answer is ordered by ascending distance. *)
Lemma collection_query_sorted query_ n where_ :
  Sorted closer (collection_query W query_ n where_).
Proof.
  unfold collection_query.
  assert (Total closer) as Htot.
  { intros a b. unfold closer. destruct (Qc_le_total (h_distance a) (h_distance b)); auto. }
  pose proof (Sorted_merge_sort closer
    (hit_of W query_ <$> filter (fun e => matches where_ e = true) (collection W)))
    as Hs.
  revert Hs. generalize (merge_sort closer
    (hit_of W query_ <$> filter (fun e => matches where_ e = true) (collection W))).
  intros l. revert l. induction n as [|n IH]; intros [|x l] Hs; simpl; try constructor.
  - apply IH. by inversion Hs.
  - inversion Hs as [|?? _ Hhd]; subst. destruct l as [|y l]; simpl.
    + destruct n; constructor.
    + destruct n; simpl; constructor. by inversion Hhd.
Qed.

End IndexFacts.

(** ** Relevance arithmetic *)

Section Relevance.
Local Open Scope Qc_scope.

Lemma one_minus_le_one (d : Qc) : 0 <= d -> 1 - d <= 1.
Proof.
  intros Hd. unfold Qcminus.
  rewrite <-(Qcplus_0_r 1) at 2. apply Qcplus_le_mono_l.
  by apply Qcopp_le_compat in Hd.
Qed.

Lemma py_max_zero_range (x : Qc) : 0 <= py_max 0 x.
Proof.
  unfold py_max. case_decide as Hlt; [by apply Qclt_le_weak|done].
Qed.

Lemma retrieve_relevance_clamp (d : Qc) :
  0 <= d -> retrieve_relevance d = clamp (1 - d) 0 1.
Proof.
  intros Hd. pose proof (one_minus_le_one d Hd) as Hle.
  unfold retrieve_relevance, py_max, clamp.
  destruct (decide (0 < 1 - d)) as [Hpos|Hnpos].
  - rewrite decide_False by (by apply Qcle_not_lt, Qclt_le_weak).
    rewrite decide_False by (by apply Qcle_not_lt). done.
  - apply Qcnot_lt_le in Hnpos.
    destruct (decide (1 - d < 0)) as [|Hn]; [done|].
    apply Qcnot_lt_le in Hn.
    rewrite decide_False by (by apply Qcle_not_lt).
    by apply Qcle_antisym.
Qed.

Lemma retrieve_relevance_range (d : Qc) :
  0 <= d -> 0 <= retrieve_relevance d /\ retrieve_relevance d <= 1.
Proof.
  intros Hd. split; [apply py_max_zero_range|].
  unfold retrieve_relevance, py_max. case_decide; [by apply one_minus_le_one|done].
Qed.

Lemma retrieve_relevance_mono (d1 d2 : Qc) :
  d1 <= d2 -> retrieve_relevance d2 <= retrieve_relevance d1.
Proof.
  intros Hd. assert (1 - d2 <= 1 - d1) as Hle.
  { unfold Qcminus. apply Qcplus_le_mono_l. by apply Qcopp_le_compat. }
  unfold retrieve_relevance, py_max.
  destruct (decide (0 < 1 - d2)) as [H2|H2]; destruct (decide (0 < 1 - d1)) as [H1|H1].
  - done.
  - destruct H1. by eapply Qclt_le_trans.
  - by apply Qclt_le_weak.
  - done.
Qed.

End Relevance.

(** ** The retriever *)

Section RetrieverFacts.
Context (W : World).

Lemma meta_text_wf md :
  meta_wf md ->
  exists u t b,
    md !! "url" = Some (MStr u) /\ meta_text md "url" = inr u /\
    md !! "title" = Some (MStr t) /\ meta_text md "title" = inr t /\
    md !! "brand" = Some (MStr b) /\ meta_text md "brand" = inr b.
Proof.
  intros ([u Hu] & [t Ht] & [b Hb]). exists u, t, b. unfold meta_text.
  by rewrite Hu, Ht, Hb.
Qed.

Lemma query_hits_wf query_ n where_ :
  store_wf W ->
  Forall (fun h => meta_wf (h_metadata h)) (collection_query W query_ n where_).
Proof.
  intros Hwf. apply Forall_forall. intros h Hin.
  apply collection_query_elem in Hin as (e & Hin & _ & ->).
  unfold store_wf in Hwf. rewrite Forall_forall in Hwf. by apply Hwf.
Qed.

(** Step 3 of [retrieve] on rows with well-formed metadata: one result
    per row that passes the threshold, in the order of the rows. *)
Lemma collect_results_spec min_relevance hits :
  Forall (fun h => meta_wf (h_metadata h)) hits ->
  exists rs,
    collect_results min_relevance hits = inr rs /\
    Forall2 (built_from retrieve_relevance)
      (filter (fun h => ~ (retrieve_relevance (h_distance h) < min_relevance)%Qc) hits)
      rs.
Proof.
  induction 1 as [|h hits Hh _ IH].
  - exists []. split; [done|]. constructor.
  - destruct IH as (rs & Hrs & Hall). cbn [collect_results].
    fold (retrieve_relevance (h_distance h)). rewrite filter_cons.
    destruct (decide (retrieve_relevance (h_distance h) < min_relevance)%Qc)
      as [Hlow|Hok].
    + rewrite decide_False by auto. by exists rs.
    + rewrite decide_True by done.
      destruct (meta_text_wf _ Hh) as (u & t & b & _ & _ & Ht & -> & Hb & ->).
      rewrite Hrs. eexists. split; [done|]. constructor; [|done].
      by repeat split.
Qed.

Lemma ensure_diversity_nil k : _ensure_diversity [] k = [].
Proof. done. Qed.

(** What [retrieve] returns on a well-formed store: it never raises, makes
    the analyzer's call and one index query, and filters for diversity
    exactly when the analysis is comparative. *)
Lemma retrieve_spec query_ max_results min_relevance tr :
  store_wf W ->
  exists a rs,
    analyze W query_ tr = (inr a, tr ++ [analyzer_call query_]) /\
    collect_results min_relevance
      (collection_query W (expanded_query a) max_results None) = inr rs /\
    retrieve W query_ max_results min_relevance tr =
      (inr {| query := query_;
              query_analysis := a;
              results := if is_comparative a then _ensure_diversity rs 1 else rs;
              total_retrieved :=
                length (if is_comparative a then _ensure_diversity rs 1 else rs) |},
       tr ++ [analyzer_call query_; EvQuery (expanded_query a) max_results None]).
Proof.
  intros Hwf. destruct (analyze_total W query_ tr) as [a Ha].
  destruct (collect_results_spec min_relevance
              (collection_query W (expanded_query a) max_results None))
    as (rs & Hrs & _); [by apply query_hits_wf|].
  exists a, rs. split; [done|]. split; [done|].
  unfold retrieve, bind, vs_query, lift, ret. rewrite Ha, Hrs.
  rewrite <-app_assoc. simpl.
  destruct (is_comparative a); simpl; [|done].
  destruct rs as [|r rs]; done.
Qed.

(** The targeted branch on a well-formed store: one lookup per key, in
    order, and one result per key that is stored. *)
Lemma targeted_results_spec query_ urls tr :
  store_wf W ->
  exists rs,
    targeted_results W query_ urls tr = (inr rs, tr ++ (lookup_call query_ <$> urls)) /\
    source_key <$> rs = (fun k => Some (MStr k)) <$> filter (has_entry W) urls /\
    Forall (fun r => exists h, h ∈ (hit_of W query_ <$> collection W) /\
                               built_from targeted_relevance h r) rs.
Proof.
  intros Hwf. revert tr. induction urls as [|url urls IH]; intros tr.
  - exists []. simpl. unfold ret. by rewrite app_nil_r.
  - cbn [targeted_results]. unfold bind at 1. unfold vs_query at 1.
    destruct (IH (tr ++ [lookup_call query_ url])) as (rs & Hrs & Hkeys & Hall).
    rewrite filter_cons, fmap_cons.
    replace (tr ++ lookup_call query_ url :: (lookup_call query_ <$> urls))
      with ((tr ++ [lookup_call query_ url]) ++ (lookup_call query_ <$> urls))
      by (by rewrite <-app_assoc).
    pose proof (lookup_nonempty W query_ url) as Hne.
    pose proof (query_hits_wf query_ 1 (Some ("url", MStr url)) Hwf) as Hhits.
    pose proof (collection_query_elem W query_ 1 (Some ("url", MStr url))) as Helem.
    fold (lookup_call query_ url).
    destruct (collection_query W query_ 1 (Some ("url", MStr url))) as [|h hs].
    + rewrite decide_False by (intros He; by apply Hne in He). eauto.
    + rewrite decide_True by (by apply Hne).
      apply Forall_cons in Hhits as [Hh _].
      destruct (meta_text_wf _ Hh) as (u & t & b & Hu & _ & Ht & Htt & Hb & Hbt).
      destruct (Helem h) as (e & Hin & Hm & ->); [apply list_elem_of_here|].
      apply matches_url in Hm.
      unfold bind, lift. rewrite Htt, Hbt, Hrs. unfold ret. eexists.
      split; [done|]. split.
      * rewrite !fmap_cons, Hkeys. f_equal. exact Hm.
      * constructor; [|done]. exists (hit_of W query_ e).
        split; [by apply list_elem_of_fmap_2|]. by repeat split.
Qed.

End RetrieverFacts.

(** ** The synthesizer *)

Section SynthesizerFacts.
Context (W : World).

Lemma source_keys_spec rs :
  Forall (fun r => exists u, metadata r !! "url" = Some (MStr u)) rs ->
  exists urls,
    source_keys rs = inr urls /\
    (fun u => Some (MStr u)) <$> urls = source_key <$> rs.
Proof.
  induction 1 as [|r rs [u Hu] _ (urls & Hk & Hs)].
  - by exists [].
  - exists (u :: urls). cbn [source_keys]. unfold meta_text. rewrite Hu, Hk.
    split; [done|]. rewrite !fmap_cons, Hs. f_equal. by rewrite <-Hu.
Qed.

Lemma stored_keys_inj (l1 l2 : list string) :
  (fun u => Some (MStr u)) <$> l1 = (fun u => Some (MStr u)) <$> l2 -> l1 = l2.
Proof.
  revert l2. induction l1 as [|a l1 IH]; intros [|b l2] Heq; try done.
  rewrite !fmap_cons in Heq. injection Heq as -> Heq. f_equal. by apply IH.
Qed.

(** A generation failure inside [_generate_comparison] is caught. *)
Lemma generate_comparison_failure query_ context tr msg :
  is_comparative (query_analysis context) = true ->
  synthesis_answer W tr query_ context = inl msg ->
  _generate_comparison W query_ context tr =
    (inr {| cr_query := query_;
            answer := "Error generating comparison: " +:+ msg;
            products_compared := titles (results context);
            comparison_table := None;
            summary := None;
            citations := [] |},
     tr ++ [synthesis_call W query_ context]).
Proof.
  unfold synthesis_answer, synthesis_call. intros -> Hfail.
  unfold _generate_comparison, try_except, bind, generate. by rewrite Hfail.
Qed.

(** A generation failure inside [_generate_answer] is caught. *)
Lemma generate_answer_failure query_ context tr msg :
  is_comparative (query_analysis context) = false ->
  synthesis_answer W tr query_ context = inl msg ->
  _generate_answer W query_ context tr =
    (inr {| cr_query := query_;
            answer := "Error generating answer: " +:+ msg;
            products_compared := titles (results context);
            comparison_table := None;
            summary := None;
            citations := [] |},
     tr ++ [synthesis_call W query_ context]).
Proof.
  unfold synthesis_answer, synthesis_call. intros -> Hfail.
  unfold _generate_answer, try_except, bind, generate. by rewrite Hfail.
Qed.

Lemma generate_comparison_success query_ context tr text urls :
  is_comparative (query_analysis context) = true ->
  synthesis_answer W tr query_ context = inr text ->
  source_keys (results context) = inr urls ->
  _generate_comparison W query_ context tr =
    (inr {| cr_query := query_;
            answer := text;
            products_compared := titles (results context);
            comparison_table := _extract_comparison_table W text context;
            summary := None;
            citations := urls |},
     tr ++ [synthesis_call W query_ context]).
Proof.
  unfold synthesis_answer, synthesis_call. intros -> Hok Hkeys.
  unfold _generate_comparison, try_except, bind, generate, lift.
  by rewrite Hok, Hkeys.
Qed.

Lemma generate_answer_success query_ context tr text urls :
  is_comparative (query_analysis context) = false ->
  synthesis_answer W tr query_ context = inr text ->
  source_keys (results context) = inr urls ->
  _generate_answer W query_ context tr =
    (inr {| cr_query := query_;
            answer := text;
            products_compared := titles (results context);
            comparison_table := None;
            summary := None;
            citations := urls |},
     tr ++ [synthesis_call W query_ context]).
Proof.
  unfold synthesis_answer, synthesis_call. intros -> Hok Hkeys.
  unfold _generate_answer, try_except, bind, generate, lift.
  by rewrite Hok, Hkeys.
Qed.

(** [compare] after its retrieval step. *)
Lemma compare_unfold query_ urls tr context tr' :
  compare_context W query_ urls tr = (inr context, tr') ->
  compare W query_ urls tr =
    match results context with
    | [] => (inr (no_products_result query_), tr')
    | _ :: _ =>
        if is_comparative (query_analysis context)
        then _generate_comparison W query_ context tr'
        else _generate_answer W query_ context tr'
    end.
Proof.
  intros Hctx. unfold compare, bind. rewrite Hctx.
  destruct (results context); [done|]. by destruct (is_comparative _).
Qed.

(** The results of the retrieval step of [compare] carry the metadata of
    stored entries. *)
Lemma compare_context_wf query_ urls tr context tr' :
  store_wf W ->
  compare_context W query_ urls tr = (inr context, tr') ->
  Forall (fun r => meta_wf (metadata r)) (results context).
Proof.
  intros Hwf. unfold compare_context, retrieve_for_comparison.
  assert (forall max_results tr0,
    retrieve W query_ max_results 0%Qc tr0 = (inr context, tr') ->
    Forall (fun r => meta_wf (metadata r)) (results context)) as Hretrieve.
  { intros max_results tr0.
    destruct (retrieve_spec W query_ max_results 0%Qc tr0 Hwf)
      as (a & rs & _ & Hrs & ->).
    intros [= <- _]. cbn [results].
    destruct (collect_results_spec 0%Qc _
                (query_hits_wf W (expanded_query a) max_results None Hwf))
      as (rs' & Hrs' & Hall).
    rewrite Hrs in Hrs'. injection Hrs' as <-.
    assert (Forall (fun r => meta_wf (metadata r)) rs) as Hmeta.
    { eapply Forall2_Forall_r; [exact Hall|]. apply Forall_forall.
      intros h Hin r (-> & _). apply list_elem_of_filter in Hin as [_ Hin].
      pose proof (query_hits_wf W (expanded_query a) max_results None Hwf) as Hq.
      rewrite Forall_forall in Hq. by apply Hq. }
    destruct (is_comparative a); [|done].
    rewrite ensure_diversity_keep_capped.
    rewrite Forall_forall in Hmeta. apply Forall_forall. intros r Hin.
    apply Hmeta. eapply elem_of_sublist; [done|apply keep_capped_sublist]. }
  destruct (truthy urls) eqn:Htruthy; [|by apply Hretrieve].
  unfold bind.
  destruct (targeted_results_spec W query_ (default [] urls) tr Hwf)
    as (rs & -> & _ & Hall).
  destruct (analyze_total W query_ (tr ++ (lookup_call query_ <$> default [] urls)))
    as [a ->].
  intros [= <- _]. cbn [results].
  apply Forall_impl with (1 := Hall). intros r (h & Hin & -> & _).
  apply list_elem_of_fmap in Hin as (e & -> & Hin).
  unfold store_wf in Hwf. rewrite Forall_forall in Hwf. by apply Hwf.
Qed.

End SynthesizerFacts.

(** ** Table extraction *)

Section TableFacts.
Context (W : World).

Lemma the_row_keys r :
  has_table_keys r ->
  exists b c p,
    metadata r !! "brand" = Some b /\
    metadata r !! "currency" = Some c /\
    metadata r !! "price" = Some p /\
    table_row W r =
      inr {| row_brand := b;
             row_price := py_str W c +:+ py_str W p;
             row_rating := default (MStr "N/A") (metadata r !! "rating") |}.
Proof.
  intros ([b Hb] & [c Hc] & [p Hp]). exists b, c, p.
  unfold table_row, getitem. by rewrite Hb, Hc, Hp.
Qed.

Lemma the_row_no_keys r : ~ has_table_keys r -> exists e, table_row W r = inl e.
Proof.
  unfold has_table_keys, table_row, getitem. intros Hn.
  destruct (metadata r !! "brand") as [b|]; [|eauto].
  destruct (metadata r !! "currency") as [c|]; [|eauto].
  destruct (metadata r !! "price") as [p|]; [|eauto].
  destruct Hn. eauto.
Qed.

Lemma last_titled_cons t r l :
  last_titled t (r :: l) =
    match last_titled t l with
    | Some r' => Some r'
    | None => if decide (product_title r = t) then Some r else None
    end.
Proof.
  unfold last_titled. rewrite filter_cons.
  destruct (decide (product_title r = t)); [|by destruct (last _)].
  destruct (filter _ l) as [|x xs]; [done|]. rewrite last_cons.
  by destruct (last (x :: xs)) eqn:Hl.
Qed.

Lemma last_titled_None t l : last_titled t l = None <-> t ∉ titles l.
Proof.
  induction l as [|r l IH].
  - split; [intros _; apply not_elem_of_nil|done].
  - rewrite last_titled_cons. unfold titles. rewrite fmap_cons, not_elem_of_cons.
    fold (titles l). destruct (last_titled t l) as [r'|].
    + split; [done|]. intros [_ Hn]. by apply IH in Hn.
    + destruct (decide (product_title r = t)) as [Heq|Hne].
      * split; [done|]. intros [Hn _]. by destruct Hn.
      * split; [|done]. intros _. split; [done|]. by apply IH.
Qed.

Lemma last_titled_Some t l r :
  last_titled t l = Some r -> r ∈ l /\ product_title r = t.
Proof.
  unfold last_titled. intros Hl. apply last_Some_elem_of in Hl.
  apply list_elem_of_filter in Hl. tauto.
Qed.

Lemma last_titled_NoDup l r :
  NoDup (titles l) -> r ∈ l -> last_titled (product_title r) l = Some r.
Proof.
  induction l as [|x l IH]; intros Hnd Hin; [by apply elem_of_nil in Hin|].
  unfold titles in Hnd. rewrite fmap_cons in Hnd. apply NoDup_cons in Hnd as [Hx Hnd].
  rewrite last_titled_cons. apply elem_of_cons in Hin as [->|Hin].
  - assert (last_titled (product_title x) l = None) as -> by (by apply last_titled_None).
    by rewrite decide_True.
  - by rewrite IH.
Qed.

(** The loop of table extraction: a later result with the same title
    overwrites the row of an earlier one. *)
Lemma fill_table_spec rs table0 :
  Forall has_table_keys rs ->
  exists table,
    fill_table W table0 rs = inr table /\
    forall t, table !! t =
      match last_titled t rs with
      | Some r => the_row W r
      | None => table0 !! t
      end.
Proof.
  intros Hall. revert table0. induction Hall as [|r rs Hr _ IH]; intros table0.
  - exists table0. split; [done|]. intros t. done.
  - destruct (the_row_keys r Hr) as (b & c & p & _ & _ & _ & Hrow).
    cbn [fill_table]. rewrite Hrow.
    destruct (IH (<[product_title r := {| row_brand := b;
             row_price := py_str W c +:+ py_str W p;
             row_rating := default (MStr "N/A") (metadata r !! "rating") |}]> table0))
      as (table & Htable & Hlook).
    exists table. split; [done|]. intros t. rewrite Hlook, last_titled_cons.
    destruct (last_titled t rs); [done|].
    destruct (decide (product_title r = t)) as [<-|Hne].
    + rewrite lookup_insert_eq. unfold the_row. by rewrite Hrow.
    + by rewrite lookup_insert_ne.
Qed.

Lemma fill_table_missing rs table0 :
  ~ Forall has_table_keys rs -> exists e, fill_table W table0 rs = inl e.
Proof.
  revert table0. induction rs as [|r rs IH]; intros table0 Hn.
  - destruct Hn. constructor.
  - cbn [fill_table]. destruct (decide (has_table_keys r)) as [Hr|Hr].
    + destruct (the_row_keys r Hr) as (b & c & p & _ & _ & _ & ->).
      apply IH. intros Hall. apply Hn. by constructor.
    + destruct (the_row_no_keys r Hr) as [e ->]. eauto.
Qed.

End TableFacts.

(** ** Relevance scores (C1) *)

(** On a well-formed store whose distances are non-negative, every result of
    [retrieve] has the relevance [clamp(1 - distance, 0, 1)] of a stored
    entry's distance to the search text, and it lies in [0,1]. *)
Lemma retrieve_scores_clamped (W : World) (query_ : string) (max_results : nat)
    (min_relevance : Qc) (tr tr' : list Event) (context : RetrievalContext) :
  store_wf W ->
  (forall text e, (0 <= distance W text e)%Qc) ->
  retrieve W query_ max_results min_relevance tr = (inr context, tr') ->
  Forall (fun r =>
            (exists e, e ∈ collection W /\
               relevance_score r =
                 clamp (1 - distance W (expanded_query (query_analysis context)) e) 0 1)%Qc /\
            (0 <= relevance_score r)%Qc /\ (relevance_score r <= 1)%Qc)
         (results context).
Proof.
  intros Hwf Hdist.
  destruct (retrieve_spec W query_ max_results min_relevance tr Hwf)
    as (a & rs & _ & Hrs & ->).
  intros [= <- _]. cbn [results query_analysis].
  destruct (collect_results_spec min_relevance _
              (query_hits_wf W (expanded_query a) max_results None Hwf))
    as (rs' & Hrs' & Hall).
  rewrite Hrs in Hrs'. injection Hrs' as <-.
  assert (Forall (fun r =>
            (exists e, e ∈ collection W /\
               relevance_score r = clamp (1 - distance W (expanded_query a) e) 0 1)%Qc /\
            (0 <= relevance_score r)%Qc /\ (relevance_score r <= 1)%Qc) rs) as Hgood.
  { eapply Forall2_Forall_r; [exact Hall|]. apply Forall_forall.
    intros h Hin r (_ & _ & _ & _ & Hrel).
    apply list_elem_of_filter in Hin as [_ Hin].
    apply collection_query_elem in Hin as (e & Hin & _ & ->).
    cbn [h_distance hit_of] in Hrel. rewrite Hrel. split.
    - exists e. split; [done|]. by apply retrieve_relevance_clamp.
    - by apply retrieve_relevance_range. }
  destruct (is_comparative a); [|done].
  rewrite ensure_diversity_keep_capped.
  rewrite Forall_forall in Hgood. apply Forall_forall. intros r Hin.
  apply Hgood. eapply elem_of_sublist; [done|apply keep_capped_sublist].
Qed.

(** C1 (the code departs from the claim).  The targeted branch of
    [retrieve_for_comparison] does not clamp: for the stored product at
    distance 3/2 from the query it returns the relevance score -1/2, which is
    below 0, where [clamp(1 - 3/2, 0, 1)] is 0 and where [retrieve] computes 0
    for the same distance. *)
Theorem C1_targeted_relevance_not_clamped :
  let W := Demo.world Demo.llm_down Demo.entries in
  let key := "https://shop.example/b" in
  exists context tr,
    retrieve_for_comparison W "compare the prices" (Some [key]) [] = (inr context, tr) /\
    h_distance <$> collection_query W "compare the prices" 1 (Some ("url", MStr key))
      = [float 3 2] /\
    relevance_score <$> results context = [float (-1) 2] /\
    (float (-1) 2 < 0)%Qc /\
    clamp (1 - float 3 2) 0 1 = 0%Qc /\
    retrieve_relevance (float 3 2) = 0%Qc.
Proof.
  intros W key. eexists _, _. split; [vm_compute; reflexivity|].
  split; [vm_compute; reflexivity|].
  split; [vm_compute; reflexivity|].
  split; [reflexivity|].
  split; vm_compute; reflexivity.
Qed.

(** ** Nothing retrieved (C2) *)

(** C2.  When the retrieval step of [compare] yields a context with zero
    results, [compare] returns (it does not raise) the fixed result: no
    compared products, the fixed explanatory answer, no table and no
    citations; and the trace of external calls is exactly the one the
    retrieval step left, so the synthesis step makes no generation call. *)
Theorem C2_compare_no_results (W : World) (query_ : string)
    (product_urls : option (list string)) (tr tr' : list Event)
    (context : RetrievalContext) :
  compare_context W query_ product_urls tr = (inr context, tr') ->
  results context = [] ->
  exists r,
    compare W query_ product_urls tr = (inr r, tr') /\
    cr_query r = query_ /\
    products_compared r = [] /\
    answer r = "I couldn't find any products to compare. Please add products first." /\
    comparison_table r = None /\
    citations r = [].
Proof.
  intros Hctx Hnil. exists (no_products_result query_).
  rewrite (compare_unfold W _ _ _ _ _ Hctx), Hnil. by repeat split.
Qed.

Lemma C2_compare_no_results_witness :
  let W := Demo.world Demo.llm_down [] in
  let q := "compare the prices" in
  let context := {| query := q; query_analysis := _fallback_analysis q;
                    results := []; total_retrieved := 0 |} in
  let tr' := [analyzer_call q; EvQuery q 10 None] in
  compare_context W q None [] = (inr context, tr') /\
  results context = [] /\
  exists r,
    compare W q None [] = (inr r, tr') /\
    cr_query r = q /\
    products_compared r = [] /\
    answer r = "I couldn't find any products to compare. Please add products first." /\
    comparison_table r = None /\
    citations r = [].
Proof.
  intros W q context tr'.
  assert (compare_context W q None [] = (inr context, tr')) as Hctx
    by (vm_compute; reflexivity).
  split; [exact Hctx|]. split; [reflexivity|].
  exact (C2_compare_no_results W q None [] tr' context Hctx eq_refl).
Defined.

(** Against an empty index [compare] always takes that exit, whatever the
    query and the keys; the only generation call of the whole run is the
    classifier call of the analyzer. *)
Lemma compare_empty_index (W : World) (query_ : string)
    (product_urls : option (list string)) (tr : list Event) :
  collection W = [] ->
  exists new_calls,
    compare W query_ product_urls tr = (inr (no_products_result query_), tr ++ new_calls) /\
    filter (fun ev => is_generate ev = true) new_calls = [analyzer_call query_].
Proof.
  intros Hempty.
  assert (store_wf W) as Hwf by (unfold store_wf; rewrite Hempty; constructor).
  assert (forall text n where_, collection_query W text n where_ = []) as Hq.
  { intros text n where_. apply length_zero_iff_nil.
    rewrite collection_query_length, Hempty. simpl. lia. }
  assert (forall max_results,
    exists a, retrieve W query_ max_results 0%Qc tr =
      (inr {| query := query_; query_analysis := a; results := [];
              total_retrieved := 0 |},
       tr ++ [analyzer_call query_; EvQuery (expanded_query a) max_results None]))
    as Hretrieve.
  { intros max_results.
    destruct (retrieve_spec W query_ max_results 0%Qc tr Hwf) as (a & rs & _ & Hrs & ->).
    rewrite Hq in Hrs. injection Hrs as <-. exists a.
    by destruct (is_comparative a). }
  destruct (truthy product_urls) eqn:Htruthy.
  - destruct (targeted_results_spec W query_ (default [] product_urls) tr Hwf)
      as (rs & Hrs & Hkeys & _).
    assert (rs = []) as ->.
    { apply (fmap_nil_inv source_key). rewrite Hkeys.
      assert (forall l, filter (has_entry W) l = []) as ->; [|done].
      intros l. induction l as [|u us IH]; [done|].
      rewrite filter_cons, decide_False; [exact IH|].
      unfold has_entry. rewrite Hempty. by intros ?%Exists_nil. }
    destruct (analyze_total W query_ (tr ++ (lookup_call query_ <$> default [] product_urls)))
      as [a Ha].
    exists ((lookup_call query_ <$> default [] product_urls) ++ [analyzer_call query_]).
    split.
    + erewrite compare_unfold.
      2:{ unfold compare_context, retrieve_for_comparison, bind. rewrite Htruthy, Hrs, Ha.
          reflexivity. }
      simpl. by rewrite app_assoc.
    + rewrite filter_app.
      assert (forall l, filter (fun ev => is_generate ev = true)
                (lookup_call query_ <$> l) = []) as ->; [|reflexivity].
      intros l. induction l as [|u us IH]; [done|].
      rewrite fmap_cons, filter_cons. simpl. exact IH.
  - destruct (Hretrieve 10) as [a Ha].
    exists [analyzer_call query_; EvQuery (expanded_query a) 10 None]. split.
    + erewrite compare_unfold.
      2:{ unfold compare_context. rewrite Htruthy. exact Ha. }
      done.
    + reflexivity.
Qed.

(** ** Diversity filtering (C3, C10) *)

(** C3.  With the default cap 1, diversity filtering returns a list in which
    no product title appears twice; it keeps exactly the first entry of each
    title (the entry of rank [i] is kept iff no entry of lower rank has its
    title); and the kept entries are in their original rank order. *)
Theorem C3_diversity_cap_one (results_ : list RetrievalResult) :
  NoDup (titles (_ensure_diversity results_ 1)) /\
  _ensure_diversity results_ 1 = first_per_title results_ /\
  _ensure_diversity results_ 1 `sublist_of` results_.
Proof.
  rewrite ensure_diversity_keep_capped. split; [apply keep_capped_one_NoDup|].
  split; [|apply keep_capped_sublist].
  unfold first_per_title. by rewrite (keep_capped_one_first [] [] results_).
Qed.

(** [retrieve] applies that filter whenever the analysis is comparative. *)
Lemma retrieve_comparative_diverse (W : World) (query_ : string) (max_results : nat)
    (min_relevance : Qc) (tr : list Event) :
  store_wf W ->
  exists context tr' candidates,
    retrieve W query_ max_results min_relevance tr = (inr context, tr') /\
    collect_results min_relevance
      (collection_query W (expanded_query (query_analysis context)) max_results None)
      = inr candidates /\
    (is_comparative (query_analysis context) = true ->
       results context = _ensure_diversity candidates 1 /\
       NoDup (titles (results context))) /\
    (is_comparative (query_analysis context) = false ->
       results context = candidates).
Proof.
  intros Hwf.
  destruct (retrieve_spec W query_ max_results min_relevance tr Hwf)
    as (a & rs & _ & Hrs & ->).
  eexists _, _, rs. split; [done|]. cbn [query_analysis results].
  split; [done|]. split; intros ->; [|done].
  split; [done|]. rewrite ensure_diversity_keep_capped. apply keep_capped_one_NoDup.
Qed.

(** C10.  Diversity filtering is idempotent for every cap of at least 1. *)
Theorem C10_diversity_idempotent (results_ : list RetrievalResult)
    (max_per_product : Z) :
  (1 <= max_per_product)%Z ->
  _ensure_diversity (_ensure_diversity results_ max_per_product) max_per_product
    = _ensure_diversity results_ max_per_product.
Proof.
  intros _. rewrite !ensure_diversity_keep_capped. by apply keep_capped_idem.
Qed.

Lemma C10_diversity_idempotent_witness :
  (1 <= 2)%Z /\
  _ensure_diversity (_ensure_diversity Demo.ranked 2) 2 = _ensure_diversity Demo.ranked 2.
Proof.
  split; [lia|]. apply (C10_diversity_idempotent Demo.ranked 2). lia.
Defined.

Example ensure_diversity_ranked_one :
  _ensure_diversity Demo.ranked 1 =
    [Demo.result Demo.phone_a (float 3 4); Demo.result Demo.phone_b 0%Qc].
Proof. vm_compute. reflexivity. Qed.

Example ensure_diversity_ranked_two :
  _ensure_diversity Demo.ranked 2 =
    [Demo.result Demo.phone_a (float 3 4); Demo.result Demo.phone_a_other (float 1 2);
     Demo.result Demo.phone_b 0%Qc].
Proof. vm_compute. reflexivity. Qed.

(** ** Targeted retrieval (C4) *)

(** C4.  On a store written by [add_product], for a non-empty key list
    [retrieve_for_comparison] returns (it does not raise); its index calls
    are one lookup per key, in key order, each with [n_results = 1] and the
    filter [url = key]; the analyzer is called once, after the lookups; the
    source keys of the results are the keys that are stored, in key order,
    hence a subsequence of the keys with at most as many entries.  With no
    keys it is [retrieve(query, max_results=20)]. *)
Theorem C4_retrieve_for_comparison (W : World) (query_ : string)
    (keys : list string) (tr : list Event) :
  store_wf W ->
  (keys <> [] ->
   exists context,
     retrieve_for_comparison W query_ (Some keys) tr =
       (inr context, tr ++ (lookup_call query_ <$> keys) ++ [analyzer_call query_]) /\
     analyze W query_ (tr ++ (lookup_call query_ <$> keys)) =
       (inr (query_analysis context),
        (tr ++ (lookup_call query_ <$> keys)) ++ [analyzer_call query_]) /\
     query context = query_ /\
     total_retrieved context = length (results context) /\
     source_key <$> results context =
       (fun k => Some (MStr k)) <$> filter (has_entry W) keys /\
     filter (has_entry W) keys `sublist_of` keys /\
     length (results context) <= length keys) /\
  retrieve_for_comparison W query_ None tr = retrieve W query_ 20 0%Qc tr /\
  retrieve_for_comparison W query_ (Some []) tr = retrieve W query_ 20 0%Qc tr.
Proof.
  intros Hwf. split; [|done]. intros Hne.
  destruct (targeted_results_spec W query_ keys tr Hwf) as (rs & Hrs & Hkeys & _).
  destruct (analyze_total W query_ (tr ++ (lookup_call query_ <$> keys))) as [a Ha].
  exists {| query := query_; query_analysis := a; results := rs;
            total_retrieved := length rs |}.
  cbn [query query_analysis results total_retrieved].
  split.
  - unfold retrieve_for_comparison. destruct keys as [|k keys]; [done|].
    cbn [truthy from_option id]. unfold bind. rewrite Hrs, Ha. unfold ret.
    by rewrite app_assoc.
  - split; [done|]. split; [done|]. split; [done|]. split; [done|].
    split; [apply sublist_filter|].
    rewrite <-(length_fmap source_key), Hkeys, length_fmap.
    apply sublist_length, sublist_filter.
Qed.

(** What [add_product] writes is well formed. *)
Lemma product_metadata_wf (product : ProductInfo) : meta_wf (product_metadata product).
Proof.
  unfold meta_wf, product_metadata. repeat split; eexists.
  - apply lookup_insert_eq.
  - rewrite lookup_insert_ne by done. apply lookup_insert_eq.
  - do 2 (rewrite lookup_insert_ne by done). apply lookup_insert_eq.
Qed.

Lemma demo_store_wf llm : store_wf (Demo.world llm Demo.entries).
Proof.
  unfold store_wf. cbn [collection Demo.world Demo.entries].
  repeat constructor; apply product_metadata_wf.
Qed.

Lemma C4_retrieve_for_comparison_witness :
  let W := Demo.world Demo.llm_down Demo.entries in
  let q := "compare the prices" in
  let keys := ["https://shop.example/b"; "https://nowhere.example/x";
               "https://shop.example/a"] in
  store_wf W /\
  keys <> [] /\
  exists context,
    retrieve_for_comparison W q (Some keys) [] =
      (inr context, (lookup_call q <$> keys) ++ [analyzer_call q]) /\
    source_key <$> results context =
      [Some (MStr "https://shop.example/b"); Some (MStr "https://shop.example/a")] /\
    length (results context) <= length keys.
Proof.
  intros W q keys. split; [apply demo_store_wf|]. split; [done|].
  destruct (C4_retrieve_for_comparison W q keys [] (demo_store_wf _)) as [Hkeys _].
  destruct (Hkeys ltac:(done)) as (context & Hrun & _ & _ & _ & Hsrc & _ & Hlen).
  exists context. split; [exact Hrun|]. split; [|exact Hlen].
  rewrite Hsrc. vm_compute. reflexivity.
Defined.

(** ** The analyzer's two exits (C5, C9) *)

(** C5.  When the classifier errors (the generation call raises, or its text
    is not a JSON object), [analyze] returns (it does not raise) the
    heuristic analysis: [is_comparative] iff the lower-cased query contains
    one of the nine keywords; [query_type] is "comparison" if comparative,
    else "specific" if the query contains one of "tell me", "what is", "how",
    else "general"; [aspects] are the taxonomy entries one of whose keywords
    occurs in the query, in taxonomy order; no entities; the expanded query
    is the query. *)
Theorem C5_analyze_fallback (W : World) (query_ : string) (tr : list Event) :
  classifier_errors W tr query_ ->
  exists a,
    analyze W query_ tr = (inr a, tr ++ [analyzer_call query_]) /\
    original_query a = query_ /\
    (is_comparative a = true <->
       exists kw, kw ∈ ["compare"; "versus"; "vs"; "which"; "better"; "best";
                        "difference"; "between"; "or"] /\
                  occurs kw (Text.lower query_)) /\
    (is_comparative a = true -> query_type a = "comparison") /\
    (is_comparative a = false ->
       (exists kw, kw ∈ ["tell me"; "what is"; "how"] /\ occurs kw (Text.lower query_)) ->
       query_type a = "specific") /\
    (is_comparative a = false ->
       ~ (exists kw, kw ∈ ["tell me"; "what is"; "how"] /\ occurs kw (Text.lower query_)) ->
       query_type a = "general") /\
    (forall t, t ∈ aspects a <->
       exists kws, (t, kws) ∈ aspect_keywords /\
         exists kw, kw ∈ kws /\ occurs kw (Text.lower query_)) /\
    aspects a `sublist_of`
      ["price"; "camera"; "battery"; "display"; "performance"; "design"] /\
    entities a = [] /\
    expanded_query a = query_.
Proof.
  intros Herr. exists (_fallback_analysis query_).
  split; [by apply analyze_fallback|]. split; [done|].
  split; [apply (any_in_spec comparative_keywords)|].
  pose proof (any_in_spec specific_keywords (Text.lower query_)) as Hspec.
  unfold _fallback_analysis at 1 2 3 4 5 6. cbn [is_comparative query_type].
  split; [by intros ->|]. split; [|split].
  - intros -> Hex. apply Hspec in Hex. by rewrite Hex.
  - intros -> Hnex. destruct (Text.any_in specific_keywords (Text.lower query_)) eqn:Hany;
      [|done]. destruct Hnex. by apply Hspec.
  - split; [apply fallback_aspects_spec|]. split; [apply fallback_aspects_sublist|done].
Qed.

Lemma C5_analyze_fallback_witness :
  let W := Demo.world Demo.llm_down Demo.entries in
  let q := "Compare the PRICE of these phones" in
  classifier_errors W [] q /\
  exists a,
    analyze W q [] = (inr a, [analyzer_call q]) /\
    is_comparative a = true /\
    query_type a = "comparison" /\
    aspects a = ["price"] /\
    entities a = [] /\
    expanded_query a = q.
Proof.
  intros W q. assert (classifier_errors W [] q) as Herr by exact I.
  split; [exact Herr|].
  destruct (C5_analyze_fallback W q [] Herr)
    as (a & Hrun & _ & _ & _ & _ & _ & _ & _ & Hent & Hexp).
  exists a. split; [exact Hrun|].
  assert (a = _fallback_analysis q) as ->.
  { rewrite (analyze_fallback W q [] Herr) in Hrun. by injection Hrun. }
  repeat split; vm_compute; reflexivity.
Defined.

(** C9.  When the classifier answers with text that parses to a JSON object,
    [analyze] does not fall back: it returns the analysis read from the
    object, each missing key replaced by its default -- "general", no
    aspects, no entities, not comparative, the query itself as expanded
    query -- and each present key taken as it is. *)
Theorem C9_analyze_partial_object (W : World) (query_ : string) (tr : list Event)
    (response : string) (obj : JsonObject) :
  classifier_answer W tr query_ = inr response ->
  json_loads W response = Some (JObject obj) ->
  exists a,
    analyze W query_ tr = (inr a, tr ++ [analyzer_call query_]) /\
    original_query a = query_ /\
    (j_query_type obj = None -> query_type a = "general") /\
    (j_aspects obj = None -> aspects a = []) /\
    (j_entities obj = None -> entities a = []) /\
    (j_is_comparative obj = None -> is_comparative a = false) /\
    (j_expanded_query obj = None -> expanded_query a = query_) /\
    (forall v, j_query_type obj = Some v -> query_type a = v) /\
    (forall v, j_aspects obj = Some v -> aspects a = v) /\
    (forall v, j_entities obj = Some v -> entities a = v) /\
    (forall v, j_is_comparative obj = Some v -> is_comparative a = v) /\
    (forall v, j_expanded_query obj = Some v -> expanded_query a = v).
Proof.
  intros Hans Hobj. eexists. split.
  - rewrite analyze_unfold, Hans, Hobj. reflexivity.
  - cbn [original_query query_type aspects entities is_comparative expanded_query].
    split; [done|]. repeat split; by intros; simplify_option_eq.
Qed.

(** The empty object: every field takes its default, although the heuristic
    would have called the same query comparative. *)
Lemma C9_analyze_partial_object_witness :
  let W := Demo.world Demo.llm_braces Demo.entries in
  let q := "compare the prices" in
  let obj := {| j_query_type := None; j_aspects := None; j_entities := None;
                j_is_comparative := None; j_expanded_query := None |} in
  classifier_answer W [] q = inr "{}" /\
  json_loads W "{}" = Some (JObject obj) /\
  is_comparative (_fallback_analysis q) = true /\
  exists a,
    analyze W q [] = (inr a, [analyzer_call q]) /\
    query_type a = "general" /\ aspects a = [] /\ entities a = [] /\
    is_comparative a = false /\ expanded_query a = q.
Proof.
  intros W q obj.
  assert (classifier_answer W [] q = inr "{}") as Hans by reflexivity.
  assert (json_loads W "{}" = Some (JObject obj)) as Hobj by reflexivity.
  split; [exact Hans|]. split; [exact Hobj|]. split; [vm_compute; reflexivity|].
  destruct (C9_analyze_partial_object W q [] "{}" obj Hans Hobj)
    as (a & Hrun & _ & Hqt & Has & Hen & Hic & Heq & _).
  exists a. split; [exact Hrun|].
  by rewrite (Hqt eq_refl), (Has eq_refl), (Hen eq_refl), (Hic eq_refl), (Heq eq_refl).
Defined.

(** ** Generation failure (C6) *)

(** C6.  For a non-empty comparative context, if the generation call of the
    synthesis step fails with the message [msg], [compare] returns (it does
    not raise) a complete result: the answer is the fixed prefix followed by
    the failure message, the compared products are the retrieved titles, and
    there is no table. *)
Theorem C6_compare_generation_failure (W : World) (query_ : string)
    (product_urls : option (list string)) (tr tr' : list Event)
    (context : RetrievalContext) (msg : string) :
  compare_context W query_ product_urls tr = (inr context, tr') ->
  results context <> [] ->
  is_comparative (query_analysis context) = true ->
  synthesis_answer W tr' query_ context = inl msg ->
  compare W query_ product_urls tr =
    (inr {| cr_query := query_;
            answer := "Error generating comparison: " +:+ msg;
            products_compared := titles (results context);
            comparison_table := None;
            summary := None;
            citations := [] |},
     tr' ++ [synthesis_call W query_ context]).
Proof.
  intros Hctx Hne Hcmp Hfail. rewrite (compare_unfold W _ _ _ _ _ Hctx).
  destruct (results context) as [|r rs] eqn:Hres; [done|].
  rewrite Hcmp, (generate_comparison_failure W _ _ _ msg Hcmp Hfail).
  by rewrite Hres.
Qed.

(** The same on the direct-answer path, with the prefix of that path. *)
Lemma compare_answer_generation_failure (W : World) (query_ : string)
    (product_urls : option (list string)) (tr tr' : list Event)
    (context : RetrievalContext) (msg : string) :
  compare_context W query_ product_urls tr = (inr context, tr') ->
  results context <> [] ->
  is_comparative (query_analysis context) = false ->
  synthesis_answer W tr' query_ context = inl msg ->
  compare W query_ product_urls tr =
    (inr {| cr_query := query_;
            answer := "Error generating answer: " +:+ msg;
            products_compared := titles (results context);
            comparison_table := None;
            summary := None;
            citations := [] |},
     tr' ++ [synthesis_call W query_ context]).
Proof.
  intros Hctx Hne Hcmp Hfail. rewrite (compare_unfold W _ _ _ _ _ Hctx).
  destruct (results context) as [|r rs] eqn:Hres; [done|].
  rewrite Hcmp, (generate_answer_failure W _ _ _ msg Hcmp Hfail).
  by rewrite Hres.
Qed.

Lemma C6_compare_generation_failure_witness :
  let W := Demo.world Demo.llm_down Demo.entries in
  let q := "compare the prices" in
  let context :=
    {| query := q; query_analysis := _fallback_analysis q;
       results := [Demo.result Demo.phone_a (float 3 4); Demo.result Demo.phone_b 0%Qc];
       total_retrieved := 2 |} in
  let tr' := [analyzer_call q; EvQuery q 10 None] in
  let msg := "LLM generation failed: Connection error." in
  compare_context W q None [] = (inr context, tr') /\
  results context <> [] /\
  is_comparative (query_analysis context) = true /\
  synthesis_answer W tr' q context = inl msg /\
  compare W q None [] =
    (inr {| cr_query := q;
            answer := "Error generating comparison: " +:+ msg;
            products_compared := ["Phone A"; "Phone B"];
            comparison_table := None;
            summary := None;
            citations := [] |},
     tr' ++ [synthesis_call W q context]).
Proof.
  intros W q context tr' msg.
  assert (compare_context W q None [] = (inr context, tr')) as Hctx
    by (vm_compute; reflexivity).
  assert (results context <> []) as Hne by done.
  assert (is_comparative (query_analysis context) = true) as Hcmp
    by (vm_compute; reflexivity).
  assert (synthesis_answer W tr' q context = inl msg) as Hfail
    by (vm_compute; reflexivity).
  repeat (split; [assumption|]).
  exact (C6_compare_generation_failure W q None [] tr' context msg Hctx Hne Hcmp Hfail).
Defined.

(** ** Citations (C7) *)

(** C7, as the code has it.  On a store written by [add_product], for a
    [compare] call with a non-empty context, on the comparative and on the
    direct-answer path alike: when the generation call succeeds the citations
    are the source keys of the retrieved results, one per result, in rank
    order, repeated keys kept; when it fails the citations are empty. *)
Theorem C7_citations (W : World) (query_ : string)
    (product_urls : option (list string)) (tr tr' : list Event)
    (context : RetrievalContext) :
  store_wf W ->
  compare_context W query_ product_urls tr = (inr context, tr') ->
  results context <> [] ->
  exists r,
    compare W query_ product_urls tr = (inr r, tr' ++ [synthesis_call W query_ context]) /\
    (forall text, synthesis_answer W tr' query_ context = inr text ->
       answer r = text /\
       (fun u => Some (MStr u)) <$> citations r = source_key <$> results context /\
       length (citations r) = length (results context)) /\
    (forall msg, synthesis_answer W tr' query_ context = inl msg ->
       citations r = []).
Proof.
  intros Hwf Hctx Hne.
  pose proof (compare_context_wf W _ _ _ _ _ Hwf Hctx) as Hmeta.
  destruct (source_keys_spec (results context)) as (urls & Hkeys & Hsrc).
  { apply Forall_impl with (1 := Hmeta). by intros r (Hu & _). }
  rewrite (compare_unfold W _ _ _ _ _ Hctx).
  destruct (results context) as [|r0 rs] eqn:Hres; [done|]. rewrite <-Hres in *.
  assert (length urls = length (results context)) as Hlen.
  { rewrite <-(length_fmap (fun u => Some (MStr u))), Hsrc. apply length_fmap. }
  destruct (is_comparative (query_analysis context)) eqn:Hcmp;
    destruct (synthesis_answer W tr' query_ context) as [msg|text] eqn:Hans.
  - rewrite (generate_comparison_failure W _ _ _ msg Hcmp Hans).
    eexists. split; [reflexivity|]. split; [done|]. by intros.
  - rewrite (generate_comparison_success W _ _ _ text urls Hcmp Hans Hkeys).
    eexists. split; [reflexivity|]. split; [|done].
    intros ? [= <-]. by cbn [answer citations].
  - rewrite (generate_answer_failure W _ _ _ msg Hcmp Hans).
    eexists. split; [reflexivity|]. split; [done|]. by intros.
  - rewrite (generate_answer_success W _ _ _ text urls Hcmp Hans Hkeys).
    eexists. split; [reflexivity|]. split; [|done].
    intros ? [= <-]. by cbn [answer citations].
Qed.

(** Two keys of the same product title, both cited. *)
Lemma C7_citations_witness :
  let W := Demo.world Demo.llm_synthesis_only Demo.entries in
  let q := "compare the prices" in
  let keys := Some ["https://other.example/a"; "https://shop.example/a";
                    "https://other.example/a"] in
  let context :=
    {| query := q; query_analysis := _fallback_analysis q;
       results := [Demo.result Demo.phone_a_other (float 1 2);
                   Demo.result Demo.phone_a (float 3 4);
                   Demo.result Demo.phone_a_other (float 1 2)];
       total_retrieved := 3 |} in
  let tr' := [lookup_call q "https://other.example/a";
              lookup_call q "https://shop.example/a";
              lookup_call q "https://other.example/a";
              analyzer_call q] in
  store_wf W /\
  compare_context W q keys [] = (inr context, tr') /\
  results context <> [] /\
  synthesis_answer W tr' q context = inr "Phone A is cheaper." /\
  exists r,
    compare W q keys [] = (inr r, tr' ++ [synthesis_call W q context]) /\
    citations r = ["https://other.example/a"; "https://shop.example/a";
                   "https://other.example/a"].
Proof.
  intros W q keys context tr'.
  assert (compare_context W q keys [] = (inr context, tr')) as Hctx
    by (vm_compute; reflexivity).
  assert (results context <> []) as Hne by done.
  assert (synthesis_answer W tr' q context = inr "Phone A is cheaper.") as Hok
    by (vm_compute; reflexivity).
  split; [apply demo_store_wf|]. repeat (split; [assumption|]).
  destruct (C7_citations W q keys [] tr' context (demo_store_wf _) Hctx Hne)
    as (r & Hrun & Hsuccess & _).
  exists r. split; [exact Hrun|].
  destruct (Hsuccess _ Hok) as (_ & Hcit & _).
  apply stored_keys_inj. rewrite Hcit. vm_compute. reflexivity.
Defined.

(** C7 as stated fails when the generation call fails: the results were
    retrieved, with their source keys, and the returned result cites none. *)
Lemma C7_counterexample :
  let W := Demo.world Demo.llm_down Demo.entries in
  let q := "compare the prices" in
  exists context tr' r tr'',
    compare_context W q None [] = (inr context, tr') /\
    source_key <$> results context =
      [Some (MStr "https://shop.example/a"); Some (MStr "https://shop.example/b")] /\
    compare W q None [] = (inr r, tr'') /\
    citations r = [] /\
    (fun u => Some (MStr u)) <$> citations r <> source_key <$> results context.
Proof.
  intros W q. eexists _, _, _, _.
  split; [vm_compute; reflexivity|].
  split; [vm_compute; reflexivity|].
  split; [vm_compute; reflexivity|].
  split; [reflexivity|]. vm_compute. discriminate.
Qed.

(** ** The comparison table (C8) *)

(** C8, as the code has it.  Table extraction returns no table for fewer
    than 2 results.  Otherwise, from the top [min(5, n)] results, when each
    has the metadata keys "brand", "currency" and "price", it returns the
    mapping whose keys are their product titles and which sends a title to
    the brand, the concatenation of currency and price, and the rating (or
    "N/A" when the metadata has none) of the last of those results that
    carries the title -- each result's own row when the titles are distinct.
    When one of them lacks such a key there is no table, and no exception.
    The generated text plays no part. *)
Theorem C8_table_extraction (W : World) (answer_ : string) (context : RetrievalContext) :
  let top := take 5 (results context) in
  length top = 5 `min` length (results context) /\
  (length (results context) < 2 ->
     _extract_comparison_table W answer_ context = None) /\
  (2 <= length (results context) -> Forall has_table_keys top ->
     exists table,
       _extract_comparison_table W answer_ context = Some table /\
       (forall t, is_Some (table !! t) <-> t ∈ titles top) /\
       (forall t r, last_titled t top = Some r ->
          exists b c p,
            metadata r !! "brand" = Some b /\
            metadata r !! "currency" = Some c /\
            metadata r !! "price" = Some p /\
            table !! t =
              Some {| row_brand := b;
                      row_price := py_str W c +:+ py_str W p;
                      row_rating := default (MStr "N/A") (metadata r !! "rating") |}) /\
       (NoDup (titles top) ->
          forall r, r ∈ top -> last_titled (product_title r) top = Some r)) /\
  (2 <= length (results context) -> ~ Forall has_table_keys top ->
     _extract_comparison_table W answer_ context = None) /\
  (forall other_answer,
     _extract_comparison_table W other_answer context =
     _extract_comparison_table W answer_ context).
Proof.
  intros top. split; [apply length_take|]. unfold _extract_comparison_table.
  split; [|split; [|split; [|done]]].
  - intros Hlt. by apply Nat.ltb_lt in Hlt as ->.
  - intros Hge Hall. apply Nat.ltb_ge in Hge as ->.
    destruct (fill_table_spec W top ∅ Hall) as (table & Hfill & Hlook).
    fold top. rewrite Hfill. exists table. split; [done|].
    rewrite Forall_forall in Hall. split; [|split].
    + intros t. rewrite Hlook. pose proof (last_titled_None t top) as Hnone.
      destruct (last_titled t top) as [r|] eqn:Hlast.
      * apply last_titled_Some in Hlast as [Hin <-].
        destruct (the_row_keys W r (Hall r Hin)) as (b & c & p & _ & _ & _ & Hrow).
        unfold the_row. rewrite Hrow. split; [intros _|by eauto].
        by apply list_elem_of_fmap_2.
      * rewrite lookup_empty. split; [by intros [? ?]|].
        intros Hin. by apply Hnone in Hin.
    + intros t r Hlast. rewrite Hlook, Hlast.
      apply last_titled_Some in Hlast as [Hin _].
      destruct (the_row_keys W r (Hall r Hin)) as (b & c & p & Hb & Hc & Hp & Hrow).
      exists b, c, p. unfold the_row. by rewrite Hrow.
    + intros Hnd r Hin. by apply last_titled_NoDup.
  - intros Hge Hmiss. apply Nat.ltb_ge in Hge as ->.
    destruct (fill_table_missing W top ∅ Hmiss) as [e He]. fold top. by rewrite He.
Qed.

(** The scenario of the specification: two phones, both with a row. *)
Example table_two_phones :
  let W := Demo.world Demo.llm_synthesis_only Demo.entries in
  exists r tr table,
    compare W "compare the prices" None [] = (inr r, tr) /\
    products_compared r = ["Phone A"; "Phone B"] /\
    comparison_table r = Some table /\
    size table = 2 /\
    table !! "Phone A" = Some {| row_brand := MStr "Acme"; row_price := "$100";
                                 row_rating := MFloat (float 9 2) |} /\
    table !! "Phone B" = Some {| row_brand := MStr "Bolt"; row_price := "$200";
                                 row_rating := MFloat 0%Qc |}.
Proof.
  intros W. eexists _, _, _. split; [vm_compute; reflexivity|].
  split; [reflexivity|]. split; [reflexivity|]. repeat split; vm_compute; reflexivity.
Qed.

(** C8 as stated fails when two of the top results share a product title:
    the same phone retrieved from two shops yields one row, and it is the row
    of the second result, not the one taken from the first result's own
    metadata. *)
Lemma C8_counterexample :
  let W := Demo.world Demo.llm_synthesis_only Demo.entries in
  let keys := Some ["https://shop.example/a"; "https://other.example/a"] in
  exists context tr first table,
    retrieve_for_comparison W "compare the prices" keys [] = (inr context, tr) /\
    length (results context) = 2 /\
    results context !! 0 = Some first /\
    product_title first = "Phone A" /\
    metadata first !! "brand" = Some (MStr "Acme") /\
    metadata first !! "currency" = Some (MStr "$") /\
    metadata first !! "price" = Some (MStr "100") /\
    _extract_comparison_table W "Phone A is cheaper." context = Some table /\
    table !! product_title first =
      Some {| row_brand := MStr "Acme Imports"; row_price := "EUR95";
              row_rating := MFloat (float 4 1) |} /\
    table !! product_title first <>
      Some {| row_brand := MStr "Acme"; row_price := "$100";
              row_rating := MFloat (float 9 2) |}.
Proof.
  intros W keys. eexists _, _, _, _.
  split; [vm_compute; reflexivity|].
  split; [reflexivity|]. split; [reflexivity|]. split; [reflexivity|].
  split; [vm_compute; reflexivity|]. split; [vm_compute; reflexivity|].
  split; [vm_compute; reflexivity|]. split; [vm_compute; reflexivity|].
  split; [vm_compute; reflexivity|]. vm_compute. discriminate.
Qed.


(** * Further properties of the code *)

(** ** Scores and order of [retrieve] *)

Lemma demo_dist_nonneg (text : string) (e : Entry) : (0 <= Demo.dist text e)%Qc.
Proof. unfold Demo.dist. repeat case_decide; by vm_compute. Qed.

Lemma retrieve_scores_clamped_witness :
  let W := Demo.world Demo.llm_down Demo.entries in
  let q := "compare the prices" in
  let context :=
    {| query := q; query_analysis := _fallback_analysis q;
       results := [Demo.result Demo.phone_a (float 3 4); Demo.result Demo.phone_b 0%Qc];
       total_retrieved := 2 |} in
  store_wf W /\
  (forall text e, (0 <= distance W text e)%Qc) /\
  retrieve W q 10 0%Qc [] = (inr context, [analyzer_call q; EvQuery q 10 None]) /\
  Forall (fun r =>
            (exists e, e ∈ collection W /\
               relevance_score r =
                 clamp (1 - distance W (expanded_query (query_analysis context)) e) 0 1)%Qc /\
            (0 <= relevance_score r)%Qc /\ (relevance_score r <= 1)%Qc)
         (results context).
Proof.
  intros W q context.
  assert (retrieve W q 10 0%Qc [] = (inr context, [analyzer_call q; EvQuery q 10 None]))
    as Hrun by (vm_compute; reflexivity).
  split; [apply demo_store_wf|]. split; [apply demo_dist_nonneg|]. split; [exact Hrun|].
  exact (retrieve_scores_clamped W q 10 0%Qc [] _ context
           (demo_store_wf _) demo_dist_nonneg Hrun).
Defined.

Section Ranking.
Context (W : World).

Lemma StronglySorted_sublist {A} (R : relation A) (l k : list A) :
  l `sublist_of` k -> StronglySorted R k -> StronglySorted R l.
Proof.
  induction 1 as [|x l k Hsub IH|x l k Hsub IH]; intros Hs.
  - constructor.
  - apply StronglySorted_inv in Hs as [Hs Hall]. constructor; [by apply IH|].
    rewrite Forall_forall in Hall. apply Forall_forall. intros y Hy.
    apply Hall. by eapply elem_of_sublist.
  - apply StronglySorted_inv in Hs as [Hs _]. by apply IH.
Qed.

Lemma StronglySorted_Forall2 {A B} (P : A -> B -> Prop) (R : relation A)
    (R' : relation B) (l : list A) (k : list B) :
  (forall x x' y y', P x y -> P x' y' -> R x x' -> R' y y') ->
  Forall2 P l k -> StronglySorted R l -> StronglySorted R' k.
Proof.
  intros Hmono. induction 1 as [|x y l k Hxy Hlk IH]; intros Hs; [constructor|].
  apply StronglySorted_inv in Hs as [Hs Hall]. constructor; [by apply IH|].
  clear IH Hs. induction Hlk as [|x' y' l k Hxy' _ IH]; [constructor|].
  apply Forall_cons in Hall as [Hx Hall]. constructor; [by eapply Hmono|by apply IH].
Qed.

Lemma collection_query_strongly_sorted query_ n where_ :
  StronglySorted closer (collection_query W query_ n where_).
Proof.
  apply Sorted_StronglySorted; [|apply collection_query_sorted].
  intros a b c. unfold closer. apply Qcle_trans.
Qed.

(** The results of [retrieve] on a well-formed store: every score reaches
    the threshold, the list is in order of non-increasing relevance, it has
    at most [max_results] entries, and [total_retrieved] counts what is
    returned (after diversity filtering, not what the index answered). *)
Theorem retrieve_ranked (query_ : string) (max_results : nat) (min_relevance : Qc)
    (tr tr' : list Event) (context : RetrievalContext) :
  store_wf W ->
  retrieve W query_ max_results min_relevance tr = (inr context, tr') ->
  Forall (fun r => (min_relevance <= relevance_score r)%Qc) (results context) /\
  StronglySorted by_relevance (results context) /\
  length (results context) <= max_results /\
  total_retrieved context = length (results context).
Proof.
  intros Hwf.
  destruct (retrieve_spec W query_ max_results min_relevance tr Hwf)
    as (a & rs & _ & Hrs & ->).
  intros [= <- _]. cbn [results total_retrieved].
  destruct (collect_results_spec min_relevance _
              (query_hits_wf W (expanded_query a) max_results None Hwf))
    as (rs' & Hrs' & Hall).
  rewrite Hrs in Hrs'. injection Hrs' as <-.
  set (hits := collection_query W (expanded_query a) max_results None) in *.
  set (passing := filter (fun h => ~ (retrieve_relevance (h_distance h) < min_relevance)%Qc)
                    hits) in *.
  assert (Forall (fun r => (min_relevance <= relevance_score r)%Qc) rs) as Hmin.
  { eapply Forall2_Forall_r; [exact Hall|]. apply Forall_forall.
    intros h Hin r (_ & _ & _ & _ & ->).
    apply list_elem_of_filter in Hin as [Hpass _]. by apply Qcnot_lt_le. }
  assert (StronglySorted by_relevance rs) as Hsorted.
  { eapply (StronglySorted_Forall2 _ closer); [|exact Hall|].
    - intros h h' r r' (_ & _ & _ & _ & Hr) (_ & _ & _ & _ & Hr') Hclose.
      unfold by_relevance. rewrite Hr, Hr'. by apply retrieve_relevance_mono.
    - eapply StronglySorted_sublist; [apply sublist_filter|].
      apply collection_query_strongly_sorted. }
  assert (length rs <= max_results) as Hlen.
  { rewrite <-(Forall2_length _ _ _ Hall).
    etrans; [apply sublist_length, sublist_filter|].
    unfold hits. rewrite collection_query_length. lia. }
  assert (forall kept, kept `sublist_of` rs ->
    Forall (fun r => (min_relevance <= relevance_score r)%Qc) kept /\
    StronglySorted by_relevance kept /\ length kept <= max_results /\
    length kept = length kept) as Hsub.
  { intros kept Hk. split; [|split; [|split; [|done]]].
    - rewrite Forall_forall in Hmin. apply Forall_forall. intros r Hin.
      apply Hmin. by eapply elem_of_sublist.
    - by eapply StronglySorted_sublist.
    - apply sublist_length in Hk. lia. }
  destruct (is_comparative a).
  - apply Hsub. rewrite ensure_diversity_keep_capped. apply keep_capped_sublist.
  - by apply Hsub.
Qed.

End Ranking.

Lemma retrieve_ranked_witness :
  let W := Demo.world Demo.llm_braces Demo.entries in
  let q := "compare the prices" in
  exists context tr',
    store_wf W /\
    retrieve W q 2 (float 1 4) [] = (inr context, tr') /\
    relevance_score <$> results context = [float 3 4; float 1 2] /\
    Forall (fun r => (float 1 4 <= relevance_score r)%Qc) (results context) /\
    StronglySorted by_relevance (results context) /\
    length (results context) <= 2 /\
    total_retrieved context = length (results context).
Proof.
  intros W q. eexists _, _. split; [apply demo_store_wf|].
  split; [vm_compute; reflexivity|]. split; [vm_compute; reflexivity|].
  eapply (retrieve_ranked W q 2 (float 1 4) []); [apply demo_store_wf|].
  vm_compute. reflexivity.
Defined.

(** ** Malformed rows in [retrieve] *)

Section RetrieveErrors.
Context (W : World).

(** A row below the threshold is skipped before its metadata is read: step
    3 of [retrieve] gives the same outcome, result or exception, on the rows
    that reach the threshold alone. *)
Theorem collect_results_threshold_first (min_relevance : Qc) (hits : list Hit) :
  collect_results min_relevance hits =
  collect_results min_relevance
    (filter (fun h => ~ (retrieve_relevance (h_distance h) < min_relevance)%Qc) hits).
Proof.
  induction hits as [|h hits IH]; [done|].
  rewrite filter_cons. cbn [collect_results].
  fold (retrieve_relevance (h_distance h)).
  destruct (decide (retrieve_relevance (h_distance h) < min_relevance)%Qc) as [Hlow|Hok].
  - by rewrite decide_False by auto.
  - rewrite decide_True by done. cbn [collect_results].
    fold (retrieve_relevance (h_distance h)).
    rewrite decide_False by done. by rewrite IH.
Qed.

Lemma collect_results_missing_key (min_relevance : Qc) (hits : list Hit) :
  Exists (fun h => ~ (retrieve_relevance (h_distance h) < min_relevance)%Qc /\
                   (h_metadata h !! "title" = None \/ h_metadata h !! "brand" = None))
         hits ->
  exists e, collect_results min_relevance hits = inl e.
Proof.
  induction 1 as [h hits [Hpass Hmiss]|h hits _ [e IH]]; cbn [collect_results];
    fold (retrieve_relevance (h_distance h)).
  - rewrite decide_False by done. unfold meta_text.
    destruct Hmiss as [-> | Hb]; [eauto|].
    destruct (h_metadata h !! "title") as [[]|]; eauto; rewrite Hb; eauto.
  - case_decide; [eauto|].
    destruct (meta_text (h_metadata h) "title"); [eauto|].
    destruct (meta_text (h_metadata h) "brand"); [eauto|].
    rewrite IH. eauto.
Qed.

(** [compare] has no handler around its retrieval step: when a row the index
    answers has no "title" or no "brand" key, [retrieve] raises and [compare]
    raises with it instead of returning a result. *)
Theorem compare_propagates_retrieval_error (query_ : string) (tr : list Event)
    (a : QueryAnalysis) :
  analyze W query_ tr = (inr a, tr ++ [analyzer_call query_]) ->
  Exists (fun h => h_metadata h !! "title" = None \/ h_metadata h !! "brand" = None)
         (collection_query W (expanded_query a) 10 None) ->
  exists e,
    retrieve W query_ 10 0%Qc tr =
      (inl e, tr ++ [analyzer_call query_; EvQuery (expanded_query a) 10 None]) /\
    compare W query_ None tr =
      (inl e, tr ++ [analyzer_call query_; EvQuery (expanded_query a) 10 None]).
Proof.
  intros Ha Hmiss.
  destruct (collect_results_missing_key 0%Qc
              (collection_query W (expanded_query a) 10 None)) as [e He].
  { apply Exists_impl with (1 := Hmiss). intros h Hh. split; [|done].
    apply Qcle_not_lt, py_max_zero_range. }
  exists e.
  assert (retrieve W query_ 10 0%Qc tr =
            (inl e, tr ++ [analyzer_call query_; EvQuery (expanded_query a) 10 None]))
    as Hretrieve.
  { unfold retrieve, bind, vs_query, lift. rewrite Ha, He. by rewrite <-app_assoc. }
  split; [done|]. unfold compare, compare_context, bind. cbn [truthy].
  by rewrite Hretrieve.
Qed.

End RetrieveErrors.

Lemma compare_propagates_retrieval_error_witness :
  let broken := {| e_id := "9"; e_document := "# untitled";
                   e_metadata := {["brand" := MStr "Acme"]} |} in
  let W := Demo.world Demo.llm_down [broken] in
  let q := "compare the prices" in
  analyze W q [] = (inr (_fallback_analysis q), [] ++ [analyzer_call q]) /\
  Exists (fun h => h_metadata h !! "title" = None \/ h_metadata h !! "brand" = None)
         (collection_query W (expanded_query (_fallback_analysis q)) 10 None) /\
  compare W q None [] =
    (inl (KeyError "title"), [analyzer_call q; EvQuery q 10 None]).
Proof.
  intros broken W q.
  assert (analyze W q [] = (inr (_fallback_analysis q), [] ++ [analyzer_call q])) as Ha
    by (vm_compute; reflexivity).
  assert (Exists (fun h => h_metadata h !! "title" = None \/ h_metadata h !! "brand" = None)
            (collection_query W (expanded_query (_fallback_analysis q)) 10 None)) as Hmiss.
  { apply Exists_cons_hd. left. vm_compute. reflexivity. }
  split; [exact Ha|]. split; [exact Hmiss|].
  destruct (compare_propagates_retrieval_error W q [] _ Ha Hmiss) as (e & _ & Hcmp).
  rewrite Hcmp. f_equal. f_equal.
  assert (compare W q None [] =
            (inl (KeyError "title"), [analyzer_call q; EvQuery q 10 None])) as Hrun
    by (vm_compute; reflexivity).
  rewrite Hrun in Hcmp. by injection Hcmp as <-.
Defined.

(** ** Diversity filtering for any cap *)

Section DiversityCounts.
Implicit Types (l acc : list RetrievalResult) (t : string) (k : Z).

Lemma count_title_cons t r l :
  count_title t (r :: l) =
    (if decide (product_title r = t) then 1 else 0) + count_title t l.
Proof.
  unfold count_title. rewrite filter_cons.
  by destruct (decide (product_title r = t)).
Qed.

Lemma keep_capped_counts k acc l t :
  count_title t (keep_capped k acc l) =
    count_title t l `min` (Z.to_nat (Z.max 1 k) - count_title t acc).
Proof.
  revert acc. induction l as [|r l IH]; intros acc.
  - unfold count_title. simpl. lia.
  - cbn [keep_capped].
    destruct (decide (Z.of_nat (count_title (product_title r) acc) < Z.max 1 k)%Z)
      as [Hlt|Hge].
    + rewrite !count_title_cons, IH, count_title_app, count_title_single.
      destruct (decide (product_title r = t)) as [<-|Hne]; lia.
    + rewrite count_title_cons, IH.
      destruct (decide (product_title r = t)) as [<-|Hne]; lia.
Qed.

Lemma keep_capped_within k acc l :
  (forall t, count_title t acc + count_title t l <= Z.to_nat (Z.max 1 k)) ->
  keep_capped k acc l = l.
Proof.
  revert acc. induction l as [|r l IH]; intros acc Hcap; [done|].
  cbn [keep_capped]. pose proof (Hcap (product_title r)) as Hr.
  rewrite count_title_cons, decide_True in Hr by done.
  rewrite decide_True by lia. f_equal. apply IH. intros t.
  specialize (Hcap t). rewrite count_title_cons in Hcap.
  rewrite count_title_app, count_title_single.
  destruct (decide (product_title r = t)); lia.
Qed.

(** For every cap, also 0 and negative ones, the filter keeps of each
    product title its first [max(1, cap)] entries: a title that occurs [n]
    times in the input occurs [min(n, max(1, cap))] times in the output, so
    no product disappears. *)
Theorem ensure_diversity_counts l k t :
  count_title t (_ensure_diversity l k) =
    count_title t l `min` Z.to_nat (Z.max 1 k).
Proof.
  rewrite ensure_diversity_keep_capped, keep_capped_counts.
  change (count_title t []) with 0. by rewrite Nat.sub_0_r.
Qed.

(** The filter returns its input unchanged exactly when no title occurs
    more than [max(1, cap)] times. *)
Theorem ensure_diversity_unchanged l k :
  _ensure_diversity l k = l <->
  forall t, count_title t l <= Z.to_nat (Z.max 1 k).
Proof.
  split.
  - intros Heq t. pose proof (keep_capped_counts k [] l t) as Hc.
    rewrite <-ensure_diversity_keep_capped, Heq in Hc.
    change (count_title t []) with 0 in Hc. lia.
  - intros Hcap. rewrite ensure_diversity_keep_capped. apply keep_capped_within.
    intros t. specialize (Hcap t). change (count_title t []) with 0. lia.
Qed.

End DiversityCounts.

Example diversity_cap_examples :
  count_title "Phone A" Demo.ranked = 3 /\
  count_title "Phone A" (_ensure_diversity Demo.ranked 2) = 2 /\
  count_title "Phone A" (_ensure_diversity Demo.ranked 0) = 1 /\
  count_title "Phone A" (_ensure_diversity Demo.ranked (-3)) = 1 /\
  _ensure_diversity Demo.ranked 3 = Demo.ranked.
Proof. repeat split; vm_compute; reflexivity. Qed.

(** ** Looking a product up in a context *)

(** [get_by_product] finds a product exactly when its title is among
    [get_all_products], and what it returns is the result of lowest rank
    with that title. *)
Theorem get_by_product_first (context : RetrievalContext) (t : string) :
  (get_by_product context t = None <-> t ∉ get_all_products context) /\
  (forall r, get_by_product context t = Some r ->
     product_title r = t /\
     exists i, results context !! i = Some r /\
       forall j r', j < i -> results context !! j = Some r' -> product_title r' <> t).
Proof.
  unfold get_by_product, get_all_products. split.
  - rewrite fmap_None, list_find_None, Forall_forall, list_elem_of_fmap. split.
    + intros Hall (r & -> & Hin). by apply (Hall r).
    + intros Hn r Hin Heq. apply Hn. by exists r.
  - intros r Hfind. apply fmap_Some in Hfind as ([i r'] & Hfind & ->).
    apply list_find_Some in Hfind as (Hi & Ht & Hleast). split; [done|].
    exists i. split; [done|]. intros j r0 Hj Hr0. by eapply Hleast.
Qed.

Example get_by_product_ranked :
  let context := {| query := "q"; query_analysis := _fallback_analysis "q";
                    results := Demo.ranked; total_retrieved := 4 |} in
  get_by_product context "Phone A" = Some (Demo.result Demo.phone_a (float 3 4)) /\
  get_by_product context "Phone C" = None.
Proof. split; vm_compute; reflexivity. Qed.

(** ** The store operations *)

Section StoreFacts.
Context (to_text : ProductInfo -> string).

Lemma filter_ext_in {A} (P Q : A -> Prop) `{!forall x, Decision (P x)}
    `{!forall x, Decision (Q x)} (l : list A) :
  (forall x, x ∈ l -> (P x <-> Q x)) -> filter P l = filter Q l.
Proof.
  induction l as [|a l IH]; intros Hext; [done|].
  rewrite !filter_cons.
  assert (filter P l = filter Q l) as ->.
  { apply IH. intros x Hx. apply Hext. by right. }
  destruct (decide (P a)) as [Hp|Hp], (decide (Q a)) as [Hq|Hq]; try done.
  - destruct Hq. apply Hext; [left|done].
  - destruct Hp. apply Hext; [left|done].
Qed.

Lemma filter_all {A} (P : A -> Prop) `{!forall x, Decision (P x)} (l : list A) :
  Forall P l -> filter P l = l.
Proof.
  induction 1 as [|a l Ha _ IH]; [done|]. by rewrite filter_cons_True, IH.
Qed.

Lemma NoDup_fmap_inj_in {A B} (f : A -> B) (l : list A) (x y : A) :
  NoDup (f <$> l) -> x ∈ l -> y ∈ l -> f x = f y -> x = y.
Proof.
  induction l as [|a l IH]; intros Hnd Hx Hy Heq; [by apply elem_of_nil in Hx|].
  rewrite fmap_cons in Hnd. apply NoDup_cons in Hnd as [Ha Hnd].
  apply elem_of_cons in Hx as [->|Hx]; apply elem_of_cons in Hy as [->|Hy].
  - done.
  - destruct Ha. rewrite Heq. by apply list_elem_of_fmap_2.
  - destruct Ha. rewrite <-Heq. by apply list_elem_of_fmap_2.
  - by apply IH.
Qed.

Lemma batch_metadata_eq (product : ProductInfo) :
  batch_metadata product = product_metadata product.
Proof.
  unfold batch_metadata, product_metadata.
  destruct (p_rating product) as [q|], (p_review_count product) as [n|]; simpl;
    repeat case_decide; subst; done.
Qed.

(** [add_products] stores what one [add_product] per product would store,
    in the same order and with the same metadata (the two call sites
    normalise missing fields alike), and the count grows by the number of
    products. *)
Theorem add_products_sequential (doc_ids : list string) (products : list ProductInfo)
    (coll : list Entry) :
  length doc_ids = length products ->
  (add_products to_text doc_ids products coll).1 = doc_ids /\
  (add_products to_text doc_ids products coll).2 =
    foldl (fun c '(doc_id, product) => (add_product to_text doc_id product c).2)
      coll (zip doc_ids products) /\
  count (add_products to_text doc_ids products coll).2 = count coll + length products.
Proof.
  intros Hlen. unfold add_products, count. cbn [fst snd].
  split; [by apply fst_zip; lia|]. split.
  - clear Hlen. revert coll.
    induction (zip doc_ids products) as [|[i p] ps IH]; intros coll.
    + simpl. by rewrite app_nil_r.
    + rewrite fmap_cons. cbn [foldl]. rewrite <-IH. unfold add_product. cbn [snd].
      by rewrite <-app_assoc, batch_metadata_eq.
  - rewrite length_app, length_fmap, length_zip. lia.
Qed.

Lemma add_product_wf (doc_id : string) (product : ProductInfo) (coll : list Entry) :
  Forall (fun e => meta_wf (e_metadata e)) coll ->
  Forall (fun e => meta_wf (e_metadata e)) (add_product to_text doc_id product coll).2.
Proof.
  intros Hwf. unfold add_product. cbn [snd]. apply Forall_app. split; [done|].
  constructor; [apply product_metadata_wf|constructor].
Qed.

Lemma delete_by_url_wf (url : string) (coll : list Entry) :
  Forall (fun e => meta_wf (e_metadata e)) coll ->
  Forall (fun e => meta_wf (e_metadata e)) (delete_by_url url coll).2.
Proof.
  intros Hwf. unfold delete_by_url. destruct (filter _ coll); [done|]. cbn [snd].
  rewrite Forall_forall in Hwf. apply Forall_forall. intros x Hin.
  apply list_elem_of_filter in Hin as [_ Hin]. by apply Hwf.
Qed.

Lemma delete_by_url_gone (url : string) (coll : list Entry) :
  Forall (fun e => ~ carries_url url e) (delete_by_url url coll).2.
Proof.
  unfold delete_by_url.
  assert (filter (fun e => matches (Some ("url", MStr url)) e = true) coll
          = filter (carries_url url) coll) as ->.
  { apply list_filter_iff. intros e. apply matches_url. }
  destruct (filter (carries_url url) coll) as [|e0 es] eqn:Hf; cbn [snd].
  - apply Forall_forall. intros e Hin He.
    assert (e ∈ filter (carries_url url) coll) as Hfe by (by apply list_elem_of_filter).
    rewrite Hf in Hfe. by apply elem_of_nil in Hfe.
  - rewrite <-Hf. apply Forall_forall. intros e Hin He.
    apply list_elem_of_filter in Hin as [Hid Hin]. apply Hid.
    apply list_elem_of_fmap_2. by apply list_elem_of_filter.
Qed.

(** Every store operation keeps the metadata of the collection well
    formed, so a collection that only these operations have touched meets
    the precondition of the retriever. *)
Theorem store_operations_keep_wf (doc_id : string) (product : ProductInfo)
    (doc_ids : list string) (products : list ProductInfo) (url : string)
    (coll : list Entry) :
  Forall (fun e => meta_wf (e_metadata e)) coll ->
  Forall (fun e => meta_wf (e_metadata e)) (add_product to_text doc_id product coll).2 /\
  Forall (fun e => meta_wf (e_metadata e)) (add_products to_text doc_ids products coll).2 /\
  Forall (fun e => meta_wf (e_metadata e)) (delete_by_url url coll).2 /\
  Forall (fun e => meta_wf (e_metadata e)) (clear coll).
Proof.
  intros Hwf. split; [|split; [|split]].
  - by apply add_product_wf.
  - unfold add_products. cbn [snd]. apply Forall_app. split; [done|].
    apply Forall_fmap, Forall_forall. intros [i p] _. simpl.
    rewrite batch_metadata_eq. apply product_metadata_wf.
  - by apply delete_by_url_wf.
  - constructor.
Qed.

(** [delete_by_url] returns how many entries carry the url; afterwards no
    entry carries it, and deleting again returns 0 and changes nothing.
    When no entry carries the url the collection is left as it is. *)
Theorem delete_by_url_spec (url : string) (coll : list Entry) :
  (delete_by_url url coll).1 = length (filter (carries_url url) coll) /\
  Forall (fun e => ~ carries_url url e) (delete_by_url url coll).2 /\
  (delete_by_url url coll).2 `sublist_of` coll /\
  delete_by_url url (delete_by_url url coll).2 = (0, (delete_by_url url coll).2) /\
  (Forall (fun e => ~ carries_url url e) coll -> delete_by_url url coll = (0, coll)).
Proof.
  assert (forall c : list Entry,
            filter (fun e => matches (Some ("url", MStr url)) e = true) c
            = filter (carries_url url) c) as Hfilter.
  { intros c. apply list_filter_iff. intros e. apply matches_url. }
  assert (forall c : list Entry,
            Forall (fun e => ~ carries_url url e) c -> delete_by_url url c = (0, c))
    as Hnone.
  { intros c Hc. unfold delete_by_url. rewrite Hfilter.
    destruct (filter (carries_url url) c) as [|e es] eqn:Hf; [done|].
    assert (e ∈ filter (carries_url url) c) as Hin by (rewrite Hf; constructor).
    apply list_elem_of_filter in Hin as [He Hin].
    rewrite Forall_forall in Hc. by destruct (Hc e Hin). }
  pose proof (delete_by_url_gone url coll) as Hgone.
  split; [|split; [done|split; [|split; [by apply Hnone|apply Hnone]]]].
  - unfold delete_by_url. rewrite Hfilter. by destruct (filter (carries_url url) coll).
  - unfold delete_by_url. destruct (filter _ coll); [done|]. apply sublist_filter.
Qed.

(** With distinct ids, as [uuid4] gives them, [delete_by_url] removes the
    entries that carry the url and no other. *)
Theorem delete_by_url_exact (url : string) (coll : list Entry) :
  NoDup (e_id <$> coll) ->
  (delete_by_url url coll).2 = filter (fun e => ~ carries_url url e) coll.
Proof.
  intros Hnd. unfold delete_by_url.
  assert (filter (fun e => matches (Some ("url", MStr url)) e = true) coll
          = filter (carries_url url) coll) as ->.
  { apply list_filter_iff. intros e. apply matches_url. }
  destruct (filter (carries_url url) coll) as [|e0 es] eqn:Hf; cbn [snd].
  - symmetry. apply filter_all, Forall_forall. intros e Hin He.
    assert (e ∈ filter (carries_url url) coll) as Hfe
      by (by apply list_elem_of_filter).
    rewrite Hf in Hfe. by apply elem_of_nil in Hfe.
  - rewrite <-Hf. apply filter_ext_in. intros e Hin. split.
    + intros Hid He. apply Hid, list_elem_of_fmap_2. by apply list_elem_of_filter.
    + intros Hne Hid. apply list_elem_of_fmap in Hid as (e' & Heq & Hin').
      apply list_elem_of_filter in Hin' as [He' Hin'].
      assert (e = e') as -> by (by eapply NoDup_fmap_inj_in).
      by apply Hne.
Qed.

End StoreFacts.

Lemma add_products_sequential_witness :
  let to_text := fun product => "# " +:+ p_title product in
  length ["1"; "2"] = length [Demo.phone_a; Demo.phone_b] /\
  (add_products to_text ["1"; "2"] [Demo.phone_a; Demo.phone_b] []).1 = ["1"; "2"] /\
  (add_products to_text ["1"; "2"] [Demo.phone_a; Demo.phone_b] []).2 =
    [Demo.entry "1" Demo.phone_a; Demo.entry "2" Demo.phone_b] /\
  count (add_products to_text ["1"; "2"] [Demo.phone_a; Demo.phone_b] []).2 = 2.
Proof.
  intros to_text.
  destruct (add_products_sequential to_text ["1"; "2"] [Demo.phone_a; Demo.phone_b] []
              eq_refl) as (Hids & Hcoll & Hcount).
  split; [reflexivity|]. split; [exact Hids|]. split; [|exact Hcount].
  rewrite Hcoll. reflexivity.
Defined.

Lemma store_operations_keep_wf_witness :
  let to_text := fun product => "# " +:+ p_title product in
  Forall (fun e => meta_wf (e_metadata e)) Demo.entries /\
  Forall (fun e => meta_wf (e_metadata e))
    (add_product to_text "4" Demo.phone_b Demo.entries).2 /\
  Forall (fun e => meta_wf (e_metadata e))
    (delete_by_url "https://shop.example/a" Demo.entries).2.
Proof.
  intros to_text. pose proof (demo_store_wf Demo.llm_down) as Hwf.
  destruct (store_operations_keep_wf to_text "4" Demo.phone_b [] []
              "https://shop.example/a" Demo.entries Hwf) as (Hadd & _ & Hdel & _).
  by repeat split.
Defined.

Lemma delete_by_url_exact_witness :
  NoDup (e_id <$> Demo.entries) /\
  delete_by_url "https://shop.example/a" Demo.entries =
    (1, [Demo.entry "2" Demo.phone_b; Demo.entry "3" Demo.phone_a_other]).
Proof.
  assert (NoDup (e_id <$> Demo.entries)) as Hnd.
  { apply (bool_decide_unpack _). vm_compute. exact I. }
  split; [exact Hnd|].
  pose proof (delete_by_url_exact "https://shop.example/a" Demo.entries Hnd) as Hdel.
  apply injective_projections.
  - vm_compute. reflexivity.
  - rewrite Hdel. vm_compute. reflexivity.
Defined.

(** ** Store operations followed by retrieval *)

Section StoreRoundTrips.
Context (W : World) (to_text : ProductInfo -> string).

Lemma analyze_with_collection (coll : list Entry) (query_ : string) (tr : list Event) :
  analyze (with_collection W coll) query_ tr = analyze W query_ tr.
Proof. by rewrite !analyze_unfold. Qed.

Lemma with_collection_wf (coll : list Entry) :
  Forall (fun e => meta_wf (e_metadata e)) coll -> store_wf (with_collection W coll).
Proof. done. Qed.

(** A product added to a store written by these operations is found by its
    url: the targeted retrieval for that one key returns exactly one result,
    and its source key is the url. *)
Theorem add_product_then_lookup (doc_id : string) (product : ProductInfo)
    (coll : list Entry) (query_ : string) (tr : list Event) :
  Forall (fun e => meta_wf (e_metadata e)) coll ->
  let W' := with_collection W (add_product to_text doc_id product coll).2 in
  exists context tr',
    retrieve_for_comparison W' query_ (Some [p_url product]) tr = (inr context, tr') /\
    source_key <$> results context = [Some (MStr (p_url product))] /\
    total_retrieved context = 1.
Proof.
  intros Hwf W'.
  assert (store_wf W') as Hwf'.
  { apply with_collection_wf. by apply add_product_wf. }
  destruct (targeted_results_spec W' query_ [p_url product] tr Hwf')
    as (rs & Hrs & Hkeys & _).
  destruct (analyze_total W' query_ (tr ++ (lookup_call query_ <$> [p_url product])))
    as [a Ha].
  assert (has_entry W' (p_url product)) as Hhas.
  { unfold has_entry, W', add_product. cbn [collection with_collection snd].
    apply Exists_app. right. apply Exists_cons_hd. cbn [e_metadata].
    unfold product_metadata. apply lookup_insert_eq. }
  rewrite filter_cons_True, filter_nil in Hkeys by done.
  eexists _, _. split.
  - unfold retrieve_for_comparison. cbn [truthy from_option id]. unfold bind.
    rewrite Hrs, Ha. reflexivity.
  - cbn [results total_retrieved]. split; [done|].
    by rewrite <-(length_fmap source_key), Hkeys.
Qed.

(** The round trip on a single product: after [clear] and one
    [add_product], every [retrieve] that asks for at least one result at
    threshold 0 returns that product alone, with its title, its brand (or
    "Unknown"), its text and its metadata. *)
Theorem single_product_round_trip (doc_id : string) (product : ProductInfo)
    (coll : list Entry) (query_ : string) (max_results : nat) (tr : list Event) :
  1 <= max_results ->
  let W' := with_collection W (add_product to_text doc_id product (clear coll)).2 in
  exists context tr' score,
    retrieve W' query_ max_results 0%Qc tr = (inr context, tr') /\
    results context =
      [{| product_title := p_title product;
          brand := or_text (p_brand product) "Unknown";
          content := to_text product;
          metadata := product_metadata product;
          relevance_score := score |}] /\
    (0 <= score)%Qc.
Proof.
  intros Hmax W'. destruct (analyze_total W' query_ tr) as [a Ha].
  set (e := {| e_id := doc_id; e_document := to_text product;
               e_metadata := product_metadata product |}).
  assert (collection_query W' (expanded_query a) max_results None
          = [hit_of W' (expanded_query a) e]) as Hq.
  { unfold collection_query, W', add_product, clear.
    cbn [collection with_collection snd app]. rewrite filter_cons_True by done.
    rewrite filter_nil. destruct max_results as [|n]; [lia|]. simpl.
    by rewrite take_nil. }
  destruct (meta_text_wf _ (product_metadata_wf product))
    as (u & t & b & _ & _ & Ht & Htt & Hb & Hbt).
  assert (t = p_title product) as ->.
  { unfold product_metadata in Ht. rewrite lookup_insert_ne in Ht by done.
    rewrite lookup_insert_eq in Ht. by injection Ht. }
  assert (b = or_text (p_brand product) "Unknown") as ->.
  { unfold product_metadata in Hb. do 2 (rewrite lookup_insert_ne in Hb by done).
    rewrite lookup_insert_eq in Hb. by injection Hb. }
  eexists _, _, (retrieve_relevance (distance W' (expanded_query a) e)).
  split; [|split; [|apply py_max_zero_range]].
  - unfold retrieve, bind, vs_query, lift. rewrite Ha, Hq. cbn [collect_results].
    cbn [hit_of h_distance h_metadata h_document].
    fold (retrieve_relevance (distance W' (expanded_query a) e)).
    rewrite decide_False by (apply Qcle_not_lt, py_max_zero_range).
    change (e_metadata e) with (product_metadata product).
    rewrite Htt, Hbt. unfold ret. reflexivity.
  - cbn [results]. change (e_document e) with (to_text product).
    change (e_metadata e) with (product_metadata product).
    destruct (is_comparative a); [|done]. cbn [andb Nat.ltb Nat.leb length].
    rewrite ensure_diversity_keep_capped. apply keep_capped_within.
    intros t0. rewrite count_title_cons.
    change (count_title t0 []) with 0. case_decide; lia.
Qed.

(** After [clear] the collection is empty, every index query answers
    nothing, and [compare] returns the fixed no-products result whatever the
    query and the keys. *)
Theorem clear_then_compare (coll : list Entry) (query_ : string)
    (product_urls : option (list string)) (tr : list Event) :
  let W' := with_collection W (clear coll) in
  count (clear coll) = 0 /\
  (forall text n where_, collection_query W' text n where_ = []) /\
  exists new_calls,
    compare W' query_ product_urls tr = (inr (no_products_result query_), tr ++ new_calls).
Proof.
  intros W'. split; [done|]. split.
  - intros text n where_. unfold collection_query. cbn. by destruct n.
  - destruct (compare_empty_index W' query_ product_urls tr eq_refl)
      as (new_calls & Hrun & _). eauto.
Qed.

(** After [delete_by_url(url)] on a store written by these operations, the
    targeted comparison for that url retrieves nothing and [compare] returns
    the fixed no-products result. *)
Theorem delete_then_compare (url : string) (coll : list Entry) (query_ : string)
    (tr : list Event) :
  Forall (fun e => meta_wf (e_metadata e)) coll ->
  let W' := with_collection W (delete_by_url url coll).2 in
  exists new_calls,
    compare W' query_ (Some [url]) tr = (inr (no_products_result query_), tr ++ new_calls).
Proof.
  intros Hwf W'.
  assert (store_wf W') as Hwf'.
  { apply with_collection_wf. by apply delete_by_url_wf. }
  destruct (targeted_results_spec W' query_ [url] tr Hwf') as (rs & Hrs & Hkeys & _).
  destruct (analyze_total W' query_ (tr ++ (lookup_call query_ <$> [url]))) as [a Ha].
  assert (~ has_entry W' url) as Hgone.
  { unfold has_entry, W'. cbn [collection with_collection].
    pose proof (delete_by_url_gone url coll) as Hnone.
    rewrite Forall_forall in Hnone. rewrite Exists_exists. intros (e & Hin & He).
    by apply (Hnone e). }
  rewrite filter_cons_False, filter_nil in Hkeys by done.
  apply fmap_nil_inv in Hkeys as ->.
  eexists. erewrite compare_unfold.
  2:{ unfold compare_context, retrieve_for_comparison, bind. cbn [truthy from_option id].
      rewrite Hrs, Ha. reflexivity. }
  cbn [results]. by rewrite <-app_assoc.
Qed.

End StoreRoundTrips.

(** ** [compare] as a whole *)

Section CompareFacts.
Context (W : World).




(** A successful [compare]: the answer is the generated text; the table is
    the one extracted from the metadata on the comparative path and absent
    on the direct-answer path, however many results there are; the summary
    is absent. *)
Theorem compare_success (query_ : string) (product_urls : option (list string))
    (tr tr' : list Event) (context : RetrievalContext) (text : string) :
  store_wf W ->
  compare_context W query_ product_urls tr = (inr context, tr') ->
  results context <> [] ->
  synthesis_answer W tr' query_ context = inr text ->
  exists r,
    compare W query_ product_urls tr = (inr r, tr' ++ [synthesis_call W query_ context]) /\
    cr_query r = query_ /\
    answer r = text /\
    products_compared r = titles (results context) /\
    comparison_table r =
      (if is_comparative (query_analysis context)
       then _extract_comparison_table W text context else None) /\
    summary r = None.
Proof.
  intros Hwf Hctx Hne Hans.
  pose proof (compare_context_wf W _ _ _ _ _ Hwf Hctx) as Hmeta.
  destruct (source_keys_spec (results context)) as (urls & Hkeys & _).
  { apply Forall_impl with (1 := Hmeta). by intros r (Hu & _). }
  rewrite (compare_unfold W _ _ _ _ _ Hctx).
  destruct (results context) as [|r0 rs] eqn:Hres; [done|]. rewrite <-Hres in *.
  destruct (is_comparative (query_analysis context)) eqn:Hcmp.
  - rewrite (generate_comparison_success W _ _ _ text urls Hcmp Hans Hkeys).
    eexists. split; [reflexivity|]. done.
  - rewrite (generate_answer_success W _ _ _ text urls Hcmp Hans Hkeys).
    eexists. split; [reflexivity|]. done.
Qed.

(** ** Several comparisons in a row *)




End CompareFacts.

(** ** [compare_with_aspects] *)

Section AspectFacts.
Context (W : World).



End AspectFacts.

Lemma append_assoc_r (a b c : string) : (a +:+ b) +:+ c = a +:+ (b +:+ c).
Proof.
  induction a as [|x a IH]; [done|]. by rewrite !append_cons, IH.
Qed.

Lemma lower_app (a b : string) : Text.lower (a +:+ b) = Text.lower a +:+ Text.lower b.
Proof.
  induction a as [|c a IH]; [done|].
  rewrite append_cons. cbn [Text.lower]. by rewrite append_cons, IH.
Qed.

(** The queries of [compare_with_aspects] all begin with "Compare", so the
    heuristic analysis calls every one of them comparative, of type
    "comparison", whatever the aspect. *)
Theorem aspect_query_comparative (aspect : string) :
  is_comparative (_fallback_analysis (aspect_query aspect)) = true /\
  query_type (_fallback_analysis (aspect_query aspect)) = "comparison".
Proof.
  assert (Text.any_in comparative_keywords (Text.lower (aspect_query aspect)) = true)
    as Hcmp.
  { apply any_in_spec. exists "compare". split; [by left|].
    exists "", (" the " +:+ Text.lower (aspect +:+ " of these products")).
    unfold aspect_query. rewrite append_empty.
    change ("Compare the " +:+ aspect +:+ " of these products")
      with ("Compare" +:+ " the " +:+ aspect +:+ " of these products").
    rewrite (lower_app "Compare"), (lower_app " the "). done. }
  unfold _fallback_analysis. cbn [is_comparative query_type]. by rewrite Hcmp.
Qed.

(** ** The generation client *)

Section ClientFacts.

Lemma lstrip_head (s : string) (c : Ascii.ascii) (rest : string) :
  Client.lstrip s = String c rest -> Client.is_space c = false.
Proof.
  induction s as [|d s IH]; [done|]. cbn [Client.lstrip].
  destruct (Client.is_space d) eqn:Hd; [done|]. by intros [= <- _].
Qed.

Lemma rstrip_cons_nonspace (c : Ascii.ascii) (s : string) :
  Client.is_space c = false ->
  exists rest, Client.rstrip (String c s) = String c rest.
Proof.
  intros Hc. cbn [Client.rstrip]. destruct (Client.rstrip s); [|eauto].
  rewrite Hc. eauto.
Qed.

Lemma rstrip_last (s pre : string) (c : Ascii.ascii) :
  Client.rstrip s = pre +:+ String c "" -> Client.is_space c = false.
Proof.
  revert pre. induction s as [|d s IH]; intros pre.
  - cbn [Client.rstrip]. destruct pre; [done|]. by rewrite append_cons.
  - cbn [Client.rstrip]. destruct (Client.rstrip s) as [|x t] eqn:Hs.
    + destruct (Client.is_space d) eqn:Hd.
      * destruct pre; [done|]. by rewrite append_cons.
      * destruct pre as [|y pre].
        -- rewrite append_empty. by intros [= <-].
        -- rewrite append_cons. intros [= _ Hp]. destruct pre; discriminate Hp.
    + destruct pre as [|y pre].
      * rewrite append_empty. intros Heq. by simplify_eq.
      * rewrite append_cons. intros [= _ Hp]. by apply (IH pre).
Qed.

Lemma rstrip_idem (s : string) : Client.rstrip (Client.rstrip s) = Client.rstrip s.
Proof.
  induction s as [|d s IH]; [done|]. cbn [Client.rstrip].
  destruct (Client.rstrip s) as [|x t] eqn:Hs.
  - destruct (Client.is_space d) eqn:Hd; [done|]. cbn [Client.rstrip]. by rewrite Hd.
  - cbn [Client.rstrip] in *. by rewrite IH.
Qed.

Lemma strip_idem (s : string) : Client.strip (Client.strip s) = Client.strip s.
Proof.
  unfold Client.strip.
  destruct (Client.lstrip s) as [|c rest] eqn:Hl; [done|].
  pose proof (lstrip_head s c rest Hl) as Hc.
  destruct (rstrip_cons_nonspace c rest Hc) as [rest' Hr]. rewrite Hr.
  cbn [Client.lstrip]. rewrite Hc, <-Hr. apply rstrip_idem.
Qed.

(** What [LLMClient.generate] hands to its callers: a text without leading
    or trailing whitespace (stripping it again changes nothing), or an
    exception whose message is "LLM generation failed: " followed by the
    message of the endpoint's exception. *)
Theorem client_generate_outcome (api : Client.Endpoint) (prompt : string)
    (system_prompt : option string) (temperature : Qc) (max_tokens : nat) :
  (forall text,
     Client.generate api prompt system_prompt temperature max_tokens = inr text ->
     Client.strip text = text /\
     (forall c rest, text = String c rest -> Client.is_space c = false) /\
     (forall pre c, text = pre +:+ String c "" -> Client.is_space c = false)) /\
  (forall err,
     Client.generate api prompt system_prompt temperature max_tokens = inl err ->
     exists e,
       api (Client.messages_of prompt system_prompt) temperature max_tokens = inl e /\
       err = "LLM generation failed: " +:+ e).
Proof.
  unfold Client.generate.
  destruct (api (Client.messages_of prompt system_prompt) temperature max_tokens)
    as [e|content_]; split; try done.
  - intros err [= <-]. eauto.
  - intros text [= <-]. split; [apply strip_idem|]. split.
    + intros c rest Htext. unfold Client.strip in Htext.
      destruct (Client.lstrip content_) as [|d s] eqn:Hl; [done|].
      pose proof (lstrip_head content_ d s Hl) as Hd.
      destruct (rstrip_cons_nonspace d s Hd) as [rest' Hr]. rewrite Hr in Htext.
      by injection Htext as <- _.
    + intros pre c Htext. by eapply rstrip_last.
Qed.

(** [generate_json] always sends a system message, also when it is given no
    system prompt or an empty one: the request is the system message, ending
    in the JSON instruction, followed by the user message, with 3000 tokens. *)
Theorem client_generate_json_request (api : Client.Endpoint) (prompt : string)
    (system_prompt : option string) (temperature : Qc) :
  exists lead,
    (lead = "" <-> system_prompt = None \/ system_prompt = Some "") /\
    (forall s, system_prompt = Some s -> s <> "" -> lead = s +:+ Text.nl +:+ Text.nl) /\
    Client.generate_json api prompt system_prompt temperature =
      match api [{| Client.role := "system";
                    Client.msg_content :=
                      lead +:+ "You MUST respond with valid JSON only. No other text." |};
                 {| Client.role := "user"; Client.msg_content := prompt |}]
              temperature 3000 with
      | inr content_ => inr (Client.strip content_)
      | inl e => inl ("LLM generation failed: " +:+ e)
      end.
Proof.
  destruct system_prompt as [[|c s]|].
  - exists "". split; [split; [by right|done]|]. split; [by intros ? [= <-]|].
    reflexivity.
  - exists (String c s +:+ Text.nl +:+ Text.nl). split; [|split].
    + rewrite append_cons. split; [done|]. by intros [|].
    + by intros ? [= <-].
    + unfold Client.generate_json, Client.generate, Client.messages_of.
      by rewrite !append_cons, <-!append_cons, !append_assoc_r.
  - exists "". split; [split; [by left|done]|]. split; [done|]. reflexivity.
Qed.

(** The pipeline on top of the client: with the client as generation
    service, the call [analyze] makes is the client's [generate_json] on the
    analyzer's two prompts. *)
Theorem analyzer_uses_generate_json (api : list Event -> Client.Endpoint) (W : World)
    (query_ : string) (tr : list Event) :
  classifier_answer (client_world api W) tr query_ =
    Client.generate_json (api tr) (analyzer_user_prompt query_)
      (Some analyzer_system_prompt) (float 1 10).
Proof.
  unfold classifier_answer, client_world, Client.generate_json. cbn [llm_generate].
  reflexivity.
Qed.

End ClientFacts.

(** ** Instances on the small store *)

Lemma add_product_then_lookup_witness :
  let W := Demo.world Demo.llm_down [] in
  let to_text := fun product => "# " +:+ p_title product in
  let W' := with_collection W (add_product to_text "4" Demo.phone_b Demo.entries).2 in
  Forall (fun e => meta_wf (e_metadata e)) Demo.entries /\
  exists context tr',
    retrieve_for_comparison W' "which one?" (Some [p_url Demo.phone_b]) []
      = (inr context, tr') /\
    source_key <$> results context = [Some (MStr (p_url Demo.phone_b))] /\
    total_retrieved context = 1.
Proof.
  intros W to_text W'. pose proof (demo_store_wf Demo.llm_down) as Hwf.
  split; [exact Hwf|].
  exact (add_product_then_lookup W to_text "4" Demo.phone_b Demo.entries "which one?" [] Hwf).
Defined.

Lemma single_product_round_trip_witness :
  let W := Demo.world Demo.llm_down [] in
  let to_text := fun product => "# " +:+ p_title product in
  let W' := with_collection W (add_product to_text "1" Demo.phone_a (clear Demo.entries)).2 in
  1 <= 3 /\
  exists context tr' score,
    retrieve W' "Phone A" 3 0%Qc [] = (inr context, tr') /\
    results context =
      [{| product_title := "Phone A"; brand := "Acme"; content := "# Phone A";
          metadata := product_metadata Demo.phone_a; relevance_score := score |}] /\
    (0 <= score)%Qc.
Proof.
  intros W to_text W'. split; [lia|].
  apply (single_product_round_trip W to_text "1" Demo.phone_a Demo.entries "Phone A" 3 []).
  lia.
Defined.

Lemma delete_then_compare_witness :
  let W := Demo.world Demo.llm_down [] in
  let url := "https://shop.example/a" in
  let W' := with_collection W (delete_by_url url Demo.entries).2 in
  Forall (fun e => meta_wf (e_metadata e)) Demo.entries /\
  exists new_calls,
    compare W' "compare the prices" (Some [url]) []
      = (inr (no_products_result "compare the prices"), [] ++ new_calls).
Proof.
  intros W url W'. pose proof (demo_store_wf Demo.llm_down) as Hwf.
  split; [exact Hwf|].
  exact (delete_then_compare W url Demo.entries "compare the prices" [] Hwf).
Defined.


Lemma compare_success_witness :
  let W := Demo.world Demo.llm_synthesis_only Demo.entries in
  let q := "tell me about phone a" in
  let context :=
    {| query := q; query_analysis := _fallback_analysis q;
       results := [Demo.result Demo.phone_a (float 3 4);
                   Demo.result Demo.phone_a_other (float 1 2);
                   Demo.result Demo.phone_b 0%Qc];
       total_retrieved := 3 |} in
  let tr' := [analyzer_call q; EvQuery q 10 None] in
  store_wf W /\
  compare_context W q None [] = (inr context, tr') /\
  results context <> [] /\
  synthesis_answer W tr' q context = inr "Phone A is cheaper." /\
  is_comparative (query_analysis context) = false /\
  exists r,
    compare W q None [] = (inr r, tr' ++ [synthesis_call W q context]) /\
    answer r = "Phone A is cheaper." /\
    products_compared r = ["Phone A"; "Phone A"; "Phone B"] /\
    comparison_table r = None.
Proof.
  intros W q context tr'.
  assert (compare_context W q None [] = (inr context, tr')) as Hctx
    by (vm_compute; reflexivity).
  assert (results context <> []) as Hne by done.
  assert (synthesis_answer W tr' q context = inr "Phone A is cheaper.") as Hok
    by (vm_compute; reflexivity).
  assert (is_comparative (query_analysis context) = false) as Hcmp
    by (vm_compute; reflexivity).
  split; [apply demo_store_wf|]. repeat (split; [assumption|]).
  destruct (compare_success W q None [] tr' context _ (demo_store_wf _) Hctx Hne Hok)
    as (r & Hrun & _ & Hans & Hprod & Htable & _).
  exists r. split; [exact Hrun|]. split; [exact Hans|]. split; [exact Hprod|].
  by rewrite Htable, Hcmp.
Defined.

Lemma compare_answer_generation_failure_witness :
  let W := Demo.world Demo.llm_down Demo.entries in
  let q := "tell me about phone a" in
  let context :=
    {| query := q; query_analysis := _fallback_analysis q;
       results := [Demo.result Demo.phone_a (float 3 4);
                   Demo.result Demo.phone_a_other (float 1 2);
                   Demo.result Demo.phone_b 0%Qc];
       total_retrieved := 3 |} in
  let tr' := [analyzer_call q; EvQuery q 10 None] in
  let msg := "LLM generation failed: Connection error." in
  compare_context W q None [] = (inr context, tr') /\
  results context <> [] /\
  is_comparative (query_analysis context) = false /\
  synthesis_answer W tr' q context = inl msg /\
  compare W q None [] =
    (inr {| cr_query := q;
            answer := "Error generating answer: " +:+ msg;
            products_compared := ["Phone A"; "Phone A"; "Phone B"];
            comparison_table := None;
            summary := None;
            citations := [] |},
     tr' ++ [synthesis_call W q context]).
Proof.
  intros W q context tr' msg.
  assert (compare_context W q None [] = (inr context, tr')) as Hctx
    by (vm_compute; reflexivity).
  assert (results context <> []) as Hne by done.
  assert (is_comparative (query_analysis context) = false) as Hcmp
    by (vm_compute; reflexivity).
  assert (synthesis_answer W tr' q context = inl msg) as Hfail
    by (vm_compute; reflexivity).
  repeat (split; [assumption|]).
  exact (compare_answer_generation_failure W q None [] tr' context msg Hctx Hne Hcmp Hfail).
Defined.



(** ** What reaches the generation service *)

(** The prompt of the synthesis step is built from the query, the analysis
    and the top 5 results on the comparative path (the top 3 on the
    direct-answer path) and from nothing else: results of lower rank do not
    reach the generation service, although they are listed among the
    compared products and the citations. *)
Theorem synthesis_call_top_results (W : World) (query_ : string)
    (c1 c2 : RetrievalContext) :
  query c1 = query c2 ->
  query_analysis c1 = query_analysis c2 ->
  take (if is_comparative (query_analysis c1) then 5 else 3) (results c1) =
  take (if is_comparative (query_analysis c1) then 5 else 3) (results c2) ->
  synthesis_call W query_ c1 = synthesis_call W query_ c2.
Proof.
  intros Hq Ha Htop. unfold synthesis_call, format_context_for_llm, get_top_k.
  rewrite <-Ha, <-Hq. by destruct (is_comparative (query_analysis c1)); rewrite Htop.
Qed.

Lemma synthesis_call_top_results_witness :
  let W := Demo.world Demo.llm_down Demo.entries in
  let q := "tell me about phone a" in
  let c1 := {| query := q; query_analysis := _fallback_analysis q;
               results := Demo.ranked; total_retrieved := 4 |} in
  let c2 := {| query := q; query_analysis := _fallback_analysis q;
               results := take 3 Demo.ranked; total_retrieved := 3 |} in
  query c1 = query c2 /\
  query_analysis c1 = query_analysis c2 /\
  take (if is_comparative (query_analysis c1) then 5 else 3) (results c1) =
  take (if is_comparative (query_analysis c1) then 5 else 3) (results c2) /\
  results c1 <> results c2 /\
  synthesis_call W q c1 = synthesis_call W q c2.
Proof.
  intros W q c1 c2.
  assert (take (if is_comparative (query_analysis c1) then 5 else 3) (results c1) =
          take (if is_comparative (query_analysis c1) then 5 else 3) (results c2)) as Htop
    by (vm_compute; reflexivity).
  split; [reflexivity|]. split; [reflexivity|]. split; [exact Htop|].
  split; [by intros Heq; apply (f_equal length) in Heq|].
  exact (synthesis_call_top_results W q c1 c2 eq_refl eq_refl Htop).
Defined.
